(** * The Flow client: request signing and dispatch

    A shallow embedding of [src/services/flow/client.ts] and of the types it
    uses ([src/services/flow/types.ts]), with the properties of the signing
    and dispatch protocol proved about it.

    Conventions of the embedding.
    - A JavaScript string is a sequence of UTF-16 code units.  The model keeps
      the code units below 256, so that a [string] (a list of 8-bit
      characters) is a JavaScript string and the code of a character is its
      code unit.
    - A JavaScript number is modelled by an integer of [Z]: the amounts, codes
      and statuses of this client are integers, and an integer of magnitude
      below 10^21 prints in plain decimal.
    - An object is the list of its own properties in property order, which
      for names that are not array indices is insertion order.
    - [console.log] calls are not modelled. *)

From Stdlib Require Import ZArith List String Ascii Bool Lia DecimalString.
From Stdlib Require Import Permutation Sorted.
Import ListNotations.

Set Warnings "-register-all".

Local Open Scope string_scope.
Local Open Scope Z_scope.
Local Open Scope list_scope.

(* ================================================================== *)
(** ** Bytes, UTF-8 and hexadecimal *)

Module Bytes.

(** The code unit of a character, and back. *)
Definition code (c : ascii) : Z := Z.of_N (N_of_ascii c).
Definition chr (z : Z) : ascii := ascii_of_N (Z.to_N z).

(** [CryptoJS.enc.Utf8.parse] and the UTF-8 step of [URLSearchParams]:
    a code unit below 128 is one byte, one in 128..255 is two. *)
Definition utf8_unit (c : ascii) : list Z :=
  let u := code c in
  if u <? 128 then [u]
  else [Z.lor 192 (Z.shiftr u 6); Z.lor 128 (Z.land u 63)].

Fixpoint utf8 (s : string) : list Z :=
  match s with
  | EmptyString => []
  | String c s' => utf8_unit c ++ utf8 s'
  end.

Definition hex_digit (lower : bool) (d : Z) : ascii :=
  if d <? 10 then chr (48 + d)
  else chr ((if lower then 87 else 55) + d).

(** Two hexadecimal digits of a byte. *)
Definition hex_byte (lower : bool) (b : Z) : string :=
  String (hex_digit lower (Z.shiftr b 4))
    (String (hex_digit lower (Z.land b 15)) EmptyString).

(** [WordArray.toString(CryptoJS.enc.Hex)]: lowercase hexadecimal. *)
Fixpoint hex (bs : list Z) : string :=
  match bs with
  | [] => EmptyString
  | b :: bs' => (hex_byte true b ++ hex bs')%string
  end.

End Bytes.

(* ================================================================== *)
(** ** SHA-256 and HMAC (FIPS 180-4, RFC 2104), on 32-bit words in [Z] *)

Module SHA256.

Definition wrap (x : Z) : Z := x mod 4294967296.
Definition add32 (x y : Z) : Z := wrap (x + y).
Definition rotr (n x : Z) : Z :=
  Z.lor (Z.shiftr x n) (wrap (Z.shiftl x (32 - n))).
Definition not32 (x : Z) : Z := 4294967295 - x.

Definition Ch (x y z : Z) : Z :=
  Z.lxor (Z.land x y) (Z.land (not32 x) z).
Definition Maj (x y z : Z) : Z :=
  Z.lxor (Z.lxor (Z.land x y) (Z.land x z)) (Z.land y z).
Definition Sigma0 (x : Z) : Z :=
  Z.lxor (Z.lxor (rotr 2 x) (rotr 13 x)) (rotr 22 x).
Definition Sigma1 (x : Z) : Z :=
  Z.lxor (Z.lxor (rotr 6 x) (rotr 11 x)) (rotr 25 x).
Definition sigma0 (x : Z) : Z :=
  Z.lxor (Z.lxor (rotr 7 x) (rotr 18 x)) (Z.shiftr x 3).
Definition sigma1 (x : Z) : Z :=
  Z.lxor (Z.lxor (rotr 17 x) (rotr 19 x)) (Z.shiftr x 10).

(** The constants are the first 32 bits of the fractional parts of the
    cube roots (round constants) and of the square roots (initial hash
    value) of the first primes. *)
Definition is_prime (n : Z) : bool :=
  (1 <? n)
  && forallb (fun d => negb (n mod d =? 0))
       (map Z.of_nat (seq 2 (Z.to_nat (Z.sqrt n) - 1))).

Definition primes : list Z :=
  Eval vm_compute in filter is_prime (map Z.of_nat (seq 2 310)).

(** The largest [r] below [2 ^ bits] with [r ^ k <= n], bit by bit. *)
Fixpoint root (k n : Z) (bits : nat) (r : Z) : Z :=
  match bits with
  | O => r
  | S b =>
      let c := r + 2 ^ Z.of_nat b in
      root k n b (if c ^ k <=? n then c else r)
  end.

Definition frac_root (k p : Z) : Z :=
  wrap (root k (p * 2 ^ (32 * k)) 40 0).

Definition K : list Z :=
  Eval vm_compute in map (frac_root 3) primes.

Definition H0 : list Z :=
  Eval vm_compute in map (frac_root 2) (firstn 8 primes).

(** Big-endian bytes of a word, and words of a byte list. *)
Definition word_bytes (w : Z) : list Z :=
  [ Z.land (Z.shiftr w 24) 255; Z.land (Z.shiftr w 16) 255;
    Z.land (Z.shiftr w 8) 255; Z.land w 255 ].

Fixpoint words (bs : list Z) : list Z :=
  match bs with
  | a :: b :: c :: d :: rest =>
      (Z.shiftl a 24 + Z.shiftl b 16 + Z.shiftl c 8 + d) :: words rest
  | _ => []
  end.

(** Padding: the bit 1, zeros up to 56 modulo 64, then the length in bits
    as a 64-bit big-endian integer. *)
Definition pad (msg : list Z) : list Z :=
  let len := Z.of_nat (List.length msg) in
  let zeros := Z.to_nat ((55 - len) mod 64) in
  let bits := 8 * len in
  msg ++ [128] ++ repeat 0 zeros
      ++ word_bytes (Z.shiftr bits 32) ++ word_bytes (wrap bits).

(** The message schedule: [w] holds the words so far, latest first. *)
Fixpoint schedule (n : nat) (w : list Z) : list Z :=
  match n with
  | O => rev w
  | S n' =>
      let w2 := nth 1 w 0 in
      let w7 := nth 6 w 0 in
      let w15 := nth 14 w 0 in
      let w16 := nth 15 w 0 in
      schedule n'
        (add32 (add32 (sigma1 w2) w7) (add32 (sigma0 w15) w16) :: w)
  end.

Record regs := Regs { ra : Z; rb : Z; rc : Z; rd : Z;
                      re : Z; rf : Z; rg : Z; rh : Z }.

Definition round (r : regs) (kw : Z * Z) : regs :=
  let (k, w) := kw in
  let t1 := add32 (add32 (add32 (rh r) (Sigma1 (re r)))
                         (add32 (Ch (re r) (rf r) (rg r)) k)) w in
  let t2 := add32 (Sigma0 (ra r)) (Maj (ra r) (rb r) (rc r)) in
  Regs (add32 t1 t2) (ra r) (rb r) (rc r)
       (add32 (rd r) t1) (re r) (rf r) (rg r).

Definition regs_of (h : list Z) : regs :=
  Regs (nth 0 h 0) (nth 1 h 0) (nth 2 h 0) (nth 3 h 0)
       (nth 4 h 0) (nth 5 h 0) (nth 6 h 0) (nth 7 h 0).

Definition compress (h : list Z) (block : list Z) : list Z :=
  let w := schedule 48 (rev block) in
  let r0 := regs_of h in
  let r := fold_left round (combine K w) r0 in
  [ add32 (ra r0) (ra r); add32 (rb r0) (rb r);
    add32 (rc r0) (rc r); add32 (rd r0) (rd r);
    add32 (re r0) (re r); add32 (rf r0) (rf r);
    add32 (rg r0) (rg r); add32 (rh r0) (rh r) ].

Fixpoint blocks (n : nat) (h : list Z) (ws : list Z) : list Z :=
  match n with
  | O => h
  | S n' =>
      match ws with
      | [] => h
      | _ => blocks n' (compress h (firstn 16 ws)) (skipn 16 ws)
      end
  end.

Definition sha256 (msg : list Z) : list Z :=
  let ws := words (pad msg) in
  flat_map word_bytes (blocks (List.length ws) H0 ws).

(** HMAC with a 64-byte block: a longer key is hashed first. *)
Definition hmac (key msg : list Z) : list Z :=
  let k0 := if (64 <? Z.of_nat (List.length key)) then sha256 key else key in
  let k := k0 ++ repeat 0 (64 - List.length k0) in
  let ipad := map (Z.lxor 54) k in
  let opad := map (Z.lxor 92) k in
  sha256 (opad ++ sha256 (ipad ++ msg)).

End SHA256.

(** [CryptoJS.HmacSHA256(message, key).toString(CryptoJS.enc.Hex)]: both
    strings are read as UTF-8. *)
Definition HmacSHA256 (message key : string) : string :=
  Bytes.hex (SHA256.hmac (Bytes.utf8 key) (Bytes.utf8 message)).

(* ================================================================== *)
(** ** JavaScript values *)

(** ToString of a number, for the numbers of the model: an integer of
    magnitude below 10^21 prints in plain decimal, with a minus sign when
    negative.  Numbers that are not integers, and the exponent notation of
    larger ones ([1e+21]), are outside the model. *)
Definition Number_toString (n : Z) : string :=
  DecimalString.NilZero.string_of_int (Z.to_int n).

(** The values of a parameter set, [string | number]. *)
Inductive scalar : Type :=
| SStr (s : string)
| SNum (n : Z).

(** [String(value)] and a template literal's conversion of a scalar. *)
Definition String_of (v : scalar) : string :=
  match v with
  | SStr s => s
  | SNum n => Number_toString n
  end.

(** Objects: [Record<string, V>] as the list of own properties in property
    order, each name at most once. *)
Module Obj.

Definition t (V : Type) : Type := list (string * V).

(** [Object.keys(o)] and [Object.entries(o)]. *)
Definition keys {V} (o : t V) : list string := map fst o.
Definition entries {V} (o : t V) : list (string * V) := o.

(** [o[key]]: the value of the property, [None] for [undefined]. *)
Fixpoint get {V} (key : string) (o : t V) : option V :=
  match o with
  | [] => None
  | (k, v) :: o' => if String.eqb key k then Some v else get key o'
  end.

(** [o[key] = v]: an existing property keeps its place and takes the new
    value, a new one is added last. *)
Fixpoint set {V} (key : string) (v : V) (o : t V) : t V :=
  match o with
  | [] => [(key, v)]
  | (k, w) :: o' =>
      if String.eqb key k then (k, v) :: o' else (k, w) :: set key v o'
  end.

(** [{...base, ...src}]: the properties of [src] copied onto [base] in
    property order. *)
Definition spread {V} (base src : t V) : t V :=
  fold_left (fun acc kv => set (fst kv) (snd kv) acc) src base.

(** The object literal [{k1: v1, ..., kn: vn}]. *)
Definition literal {V} (props : list (string * V)) : t V :=
  spread [] props.

Definition wf {V} (o : t V) : Prop := NoDup (keys o).

End Obj.

(* ================================================================== *)
(** ** [Array.prototype.sort] *)

Section Sort.

Context {A : Type} (cmp : A -> A -> comparison).

(** [x] goes before the first element it does not follow. *)
Fixpoint insert (x : A) (l : list A) : list A :=
  match l with
  | [] => [x]
  | y :: l' =>
      match cmp x y with
      | Gt => y :: insert x l'
      | _ => x :: l
      end
  end.

(** The sort is stable (ECMAScript 2019), so with a consistent comparator
    its result does not depend on the algorithm; this is an insertion sort
    from the right, which keeps equal elements in their order. *)
Definition Array_sort (l : list A) : list A :=
  fold_right insert [] l.

End Sort.

(** The default comparator of [sort()] on strings: code unit by code unit. *)
Definition code_unit_compare : string -> string -> comparison :=
  String.compare.

(* ================================================================== *)
(** ** [FlowClient.sign] *)

Record FlowConfig : Type := {
  apiKey : string;
  secretKey : string;
  baseUrl : string
}.

(** [`${params[key]}`] *)
Definition template {V} (ToStr : V -> string) (v : option V) : string :=
  match v with
  | Some x => ToStr x
  | None => "undefined"
  end.

(** [Object.keys(params).sort()] *)
Definition sortedKeys (params : Obj.t scalar) : list string :=
  Array_sort code_unit_compare (Obj.keys params).

(** [sortedKeys.map((key) => `${key}${params[key]}`).join("")] *)
Definition toSign (params : Obj.t scalar) : string :=
  String.concat ""
    (map (fun key => (key ++ template String_of (Obj.get key params))%string)
         (sortedKeys params)).

Definition sign (config : FlowConfig) (params : Obj.t scalar) : string :=
  HmacSHA256 (toSign params) (secretKey config).

(* ================================================================== *)
(** ** [String.prototype.localeCompare] *)

(** The comparison of the host's collator.  Modelled on the root collation
    of CLDR, which ICU applies for the default locale, at its default
    strength and on printable ASCII: the primary order puts the space and
    the punctuation first, then the digits, then the letters without regard
    to case; strings equal on it are ordered by case, lowercase first.
    Code units outside printable ASCII are ranked after the letters by
    their code, which is not the collator's table. *)
Module Collation.

(** Space, punctuation, symbols and the dollar sign, in collation order. *)
Definition punctuation : list Z :=
  [ 32; 95; 45; 44; 59; 58; 33; 63; 46; 39; 34; 40; 41; 91; 93; 123; 125;
    64; 42; 47; 92; 38; 35; 37; 96; 94; 43; 60; 61; 62; 124; 126; 36 ].

Fixpoint index_of (x : Z) (l : list Z) (i : Z) : option Z :=
  match l with
  | [] => None
  | y :: l' => if x =? y then Some i else index_of x l' (i + 1)
  end.

Definition is_upper (u : Z) : bool := (65 <=? u) && (u <=? 90).
Definition is_lower (u : Z) : bool := (97 <=? u) && (u <=? 122).
Definition is_digit (u : Z) : bool := (48 <=? u) && (u <=? 57).

Definition primary (c : ascii) : Z :=
  let u := Bytes.code c in
  if is_lower u then 100 + (u - 97)
  else if is_upper u then 100 + (u - 65)
  else if is_digit u then 50 + (u - 48)
  else match index_of u punctuation 0 with
       | Some i => i
       | None => 200 + u
       end.

Definition tertiary (c : ascii) : Z :=
  if is_upper (Bytes.code c) then 1 else 0.

Fixpoint weights (w : ascii -> Z) (s : string) : list Z :=
  match s with
  | EmptyString => []
  | String c s' => w c :: weights w s'
  end.

Fixpoint lex (a b : list Z) : comparison :=
  match a, b with
  | [], [] => Eq
  | [], _ :: _ => Lt
  | _ :: _, [] => Gt
  | x :: a', y :: b' =>
      match x ?= y with
      | Eq => lex a' b'
      | c => c
      end
  end.

Definition localeCompare (a b : string) : comparison :=
  match lex (weights primary a) (weights primary b) with
  | Eq => lex (weights tertiary a) (weights tertiary b)
  | c => c
  end.

End Collation.

(* ================================================================== *)
(** ** [URLSearchParams] *)

Module URLSearchParams.

(** Bytes the form-urlencoded serializer leaves as they are: the ASCII
    letters and digits and [* - . _]. *)
Definition unreserved (b : Z) : bool :=
  Collation.is_upper b || Collation.is_lower b || Collation.is_digit b
  || (b =? 42) || (b =? 45) || (b =? 46) || (b =? 95).

Definition encode_byte (b : Z) : string :=
  if unreserved b then String (Bytes.chr b) EmptyString
  else if b =? 32 then "+"
  else String "%" (Bytes.hex_byte false b).

Definition encode (s : string) : string :=
  String.concat "" (map encode_byte (Bytes.utf8 s)).

(** [new URLSearchParams(entries).toString()] *)
Definition toString (entries : list (string * string)) : string :=
  String.concat "&"
    (map (fun kv => (encode (fst kv) ++ "=" ++ encode (snd kv))%string)
         entries).

End URLSearchParams.

(* ================================================================== *)
(** ** Responses, thrown values and completions *)

(** A value read from a response body, and [undefined]. *)
Inductive value : Type :=
| Undefined
| Null
| Bool (b : bool)
| Num (n : Z)
| Str (s : string)
| Arr (elements : list value)
| Object (properties : list (string * value)).

(** ToString.  An array prints its elements separated by commas, [null]
    and [undefined] elements as nothing. *)
Fixpoint ToString (v : value) : string :=
  match v with
  | Undefined => "undefined"
  | Null => "null"
  | Bool true => "true"
  | Bool false => "false"
  | Num n => Number_toString n
  | Str s => s
  | Arr l =>
      String.concat ","
        (map (fun e => match e with
                       | Undefined | Null => ""
                       | _ => ToString e
                       end) l)
  | Object _ => "[object Object]"
  end.

(** ToBoolean *)
Definition truthy (v : value) : bool :=
  match v with
  | Undefined | Null => false
  | Bool b => b
  | Num n => negb (n =? 0)
  | Str s => negb (String.eqb s "")
  | Arr _ | Object _ => true
  end.

(** [a || b] *)
Definition or_else (a b : value) : value := if truthy a then a else b.

(** [v !== 0] *)
Definition strict_neq_zero (v : value) : bool :=
  match v with
  | Num n => negb (n =? 0)
  | _ => true
  end.

(** What a [throw] carries: a [FlowApiError], another [Error], or a value
    that is not an [Error]. *)
Inductive thrown : Type :=
| FlowApiError (message : string) (code : value)
| Error (message : string)
| NotAnError (v : value).

Inductive completion (A : Type) : Type :=
| Return (a : A)
| Throw (e : thrown).

Arguments Return {A} a.
Arguments Throw {A} e.

Definition bind {A B} (c : completion A) (k : A -> completion B)
  : completion B :=
  match c with
  | Return a => k a
  | Throw e => Throw e
  end.

Notation "x <- c ;; k" := (bind c (fun x => k))
  (at level 61, c at next level, right associativity).

(** [try { body } catch (error) { handler }] *)
Definition try_catch {A} (body : completion A)
  (handler : thrown -> completion A) : completion A :=
  match body with
  | Return a => Return a
  | Throw e => handler e
  end.

(** [v.name] for the names [code] and [message]: reading a property of
    [null] or [undefined] throws a [TypeError] (the message is V8's);
    strings, numbers, booleans and arrays have no such property. *)
Definition get_prop (v : value) (name : string) : completion value :=
  match v with
  | Undefined =>
      Throw (Error ("Cannot read properties of undefined (reading '"
                      ++ name ++ "')")%string)
  | Null =>
      Throw (Error ("Cannot read properties of null (reading '"
                      ++ name ++ "')")%string)
  | Object props =>
      match Obj.get name props with
      | Some x => Return x
      | None => Return Undefined
      end
  | _ => Return Undefined
  end.

Inductive http_method : Type := GET | POST.

(** The arguments of [fetch]. *)
Record fetch_request : Type := {
  req_url : string;
  req_method : http_method;
  req_content_type : string;
  req_body : option string
}.

(** A response: its status and what [response.json()] settles to, the
    parsed body or the [SyntaxError] of a body that is not JSON. *)
Inductive json_outcome : Type :=
| Parsed (body : value)
| Unparseable (message : string).

Record Response : Type := {
  status : Z;
  json_body : json_outcome
}.

(** [response.ok] *)
Definition ok (r : Response) : bool :=
  (200 <=? status r) && (status r <=? 299).

(** [await response.json()] *)
Definition json (r : Response) : completion value :=
  match json_body r with
  | Parsed v => Return v
  | Unparseable m => Throw (Error m)
  end.

(** [promise.catch(() => fallback)] *)
Definition catch_with {A} (c : completion A) (fallback : A) : completion A :=
  match c with
  | Return a => Return a
  | Throw _ => Return fallback
  end.

(* ================================================================== *)
(** ** [FlowClient.makeRequest] *)

(** [{ apiKey: this.config.apiKey, ...params }] *)
Definition paramsWithApiKey (config : FlowConfig) (params : Obj.t scalar)
  : Obj.t scalar :=
  Obj.spread [("apiKey", SStr (apiKey config))] params.

(** [{ ...paramsWithApiKey, s: signature }] *)
Definition signedParams (config : FlowConfig) (params : Obj.t scalar)
  : Obj.t scalar :=
  let signature := sign config (paramsWithApiKey config params) in
  Obj.set "s" (SStr signature)
    (Obj.spread [] (paramsWithApiKey config params)).

(** The comparator [([a], [b]) => a.localeCompare(b)] *)
Definition by_name {V} (x y : string * V) : comparison :=
  Collation.localeCompare (fst x) (fst y).

(** [Object.entries(signedParams).sort(...).map(([key, value]) =>
    [key, String(value)])], the same in both branches. *)
Definition sortedEntries (signed : Obj.t scalar) : list (string * string) :=
  map (fun kv => (fst kv, String_of (snd kv)))
      (Array_sort by_name (Obj.entries signed)).

(** The call of [fetch] in each branch. *)
Definition request_of (config : FlowConfig) (endpoint : string)
  (method : http_method) (params : Obj.t scalar) : fetch_request :=
  let url := (baseUrl config ++ endpoint)%string in
  let entries := sortedEntries (signedParams config params) in
  match method with
  | GET =>
      let queryString := URLSearchParams.toString entries in
      {| req_url := (url ++ "?" ++ queryString)%string;
         req_method := GET;
         req_content_type := "application/json";
         req_body := None |}
  | POST =>
      let formData := URLSearchParams.toString entries in
      {| req_url := url;
         req_method := POST;
         req_content_type := "application/x-www-form-urlencoded";
         req_body := Some formData |}
  end.

(** From [if (!response.ok)] to [return data]. *)
Definition read_response (response : Response) : completion value :=
  if negb (ok response) then
    errorData <- catch_with (json response)
                   (Object [("message", Str "Unknown error");
                            ("code", Num (status response))]) ;;
    message <- get_prop errorData "message" ;;
    code <- get_prop errorData "code" ;;
    Throw (FlowApiError
             (ToString
                (or_else message
                   (Str ("HTTP error " ++ Number_toString (status response)))))
             (or_else code (Num (status response))))
  else
    data <- json response ;;
    code <- get_prop data "code" ;;
    if truthy code && strict_neq_zero code then
      message <- get_prop data "message" ;;
      Throw (FlowApiError (ToString (or_else message (Str "API error"))) code)
    else
      Return data.

(** The [catch (error)] clause. *)
Definition on_error (error : thrown) : completion value :=
  match error with
  | FlowApiError _ _ => Throw error
  | Error message => Throw (FlowApiError message (Num 500))
  | NotAnError _ => Throw (FlowApiError "Unknown error occurred" (Num 500))
  end.

Section Transport.

(** [fetch]: the response, or what the transport throws. *)
Variable fetch : fetch_request -> completion Response.

Definition makeRequest (config : FlowConfig) (endpoint : string)
  (method : http_method) (params : Obj.t scalar) : completion value :=
  try_catch
    (response <- fetch (request_of config endpoint method params) ;;
     read_response response)
    on_error.

End Transport.

(* ================================================================== *)
(** ** The four operations *)

Module CustomerCreateRequest.
Record t : Type := { name : string; email : string; externalId : string }.
End CustomerCreateRequest.

Module CustomerRegisterRequest.
Record t : Type := { customerId : string; url_return : string }.
End CustomerRegisterRequest.

Module CustomerRegisterStatusRequest.
Record t : Type := { token : string }.
End CustomerRegisterStatusRequest.

Module CustomerChargeRequest.
Record t : Type := {
  customerId : string;
  amount : Z;
  currency : string;
  subject : string;
  commerceOrder : option string;
  email : option string;
  urlConfirmation : option string;
  urlReturn : option string
}.
End CustomerChargeRequest.

Definition createCustomer_params (request : CustomerCreateRequest.t)
  : Obj.t scalar :=
  Obj.literal
    [ ("name", SStr (CustomerCreateRequest.name request));
      ("email", SStr (CustomerCreateRequest.email request));
      ("externalId", SStr (CustomerCreateRequest.externalId request)) ].

Definition registerCustomer_params (request : CustomerRegisterRequest.t)
  : Obj.t scalar :=
  Obj.literal
    [ ("customerId", SStr (CustomerRegisterRequest.customerId request));
      ("url_return", SStr (CustomerRegisterRequest.url_return request)) ].

Definition getRegisterStatus_params (request : CustomerRegisterStatusRequest.t)
  : Obj.t scalar :=
  Obj.literal [ ("token", SStr (CustomerRegisterStatusRequest.token request)) ].

(** [if (request.field) { params.field = request.field; }]: an optional
    field is [undefined] or a string, and the empty string is falsy. *)
Definition set_if_provided (key : string) (field : option string)
  (params : Obj.t scalar) : Obj.t scalar :=
  match field with
  | Some s => if negb (String.eqb s "") then Obj.set key (SStr s) params
              else params
  | None => params
  end.

Definition chargeCustomer_params (request : CustomerChargeRequest.t)
  : Obj.t scalar :=
  let params :=
    Obj.literal
      [ ("customerId", SStr (CustomerChargeRequest.customerId request));
        ("amount", SNum (CustomerChargeRequest.amount request));
        ("currency", SStr (CustomerChargeRequest.currency request));
        ("subject", SStr (CustomerChargeRequest.subject request)) ] in
  let params := set_if_provided "commerceOrder"
                  (CustomerChargeRequest.commerceOrder request) params in
  let params := set_if_provided "email"
                  (CustomerChargeRequest.email request) params in
  let params := set_if_provided "urlConfirmation"
                  (CustomerChargeRequest.urlConfirmation request) params in
  let params := set_if_provided "urlReturn"
                  (CustomerChargeRequest.urlReturn request) params in
  params.

Section Operations.

Variable fetch : fetch_request -> completion Response.
Variable config : FlowConfig.

Definition createCustomer (request : CustomerCreateRequest.t) :=
  makeRequest fetch config "/customer/create" POST
    (createCustomer_params request).

Definition registerCustomer (request : CustomerRegisterRequest.t) :=
  makeRequest fetch config "/customer/register" POST
    (registerCustomer_params request).

Definition getRegisterStatus (request : CustomerRegisterStatusRequest.t) :=
  makeRequest fetch config "/customer/getRegisterStatus" GET
    (getRegisterStatus_params request).

Definition chargeCustomer (request : CustomerChargeRequest.t) :=
  makeRequest fetch config "/customer/charge" POST
    (chargeCustomer_params request).

End Operations.

(* ================================================================== *)
(** ** [getFlowConfig] and [getFlowClient] *)

(** [process.env]: a variable is a string or [undefined]. *)
Definition environment : Type := string -> option string.

Definition config_missing : string :=
  "Flow API configuration is missing. Please set FLOW_API_KEY, FLOW_SECRET_KEY, and FLOW_BASE_URL environment variables.".

(** [!x] for a variable of the environment: [undefined] and the empty
    string are falsy. *)
Definition unset (x : option string) : bool :=
  match x with
  | None => true
  | Some s => String.eqb s ""
  end.

Definition getFlowConfig (env : environment) : completion FlowConfig :=
  let apiKey := env "FLOW_API_KEY" in
  let secretKey := env "FLOW_SECRET_KEY" in
  let baseUrl := env "FLOW_BASE_URL" in
  match apiKey, secretKey, baseUrl with
  | Some a, Some s, Some b =>
      if unset apiKey || unset secretKey || unset baseUrl
      then Throw (Error config_missing)
      else Return {| apiKey := a; secretKey := s; baseUrl := b |}
  | _, _, _ => Throw (Error config_missing)
  end.

(** The class [FlowClient]: an instance holds its configuration. *)
Module FlowClient.
Record t : Type := new { config : FlowConfig }.
End FlowClient.

(** [getFlowClient], on the module variable [flowClientInstance]: the
    result and the variable afterwards. *)
Definition getFlowClient (env : environment)
  (flowClientInstance : option FlowClient.t)
  : completion FlowClient.t * option FlowClient.t :=
  match flowClientInstance with
  | Some client => (Return client, flowClientInstance)
  | None =>
      match getFlowConfig env with
      | Return config =>
          let client := FlowClient.new config in
          (Return client, Some client)
      | Throw e => (Throw e, None)
      end
  end.

(* ================================================================== *)
(** ** The Firebase services and [onUserCreated] *)

(** The calls to Firebase, in the order they are started. *)
Inductive call : Type :=
| auth_updateUser (uid displayName : string)
| auth_setCustomUserClaims (uid name lastName : string)
| firestore_set (collection doc : string) (data : value).

(** What the process holds between invocations, and the calls started so
    far. *)
Record world : Type := {
  flowClientInstance : option FlowClient.t;
  calls : list call
}.

(** Tasks: code that reads and changes the world and completes or throws. *)
Definition task (A : Type) : Type := world -> completion A * world.

Definition then_ {A B} (t : task A) (k : A -> task B) : task B :=
  fun w =>
    match t w with
    | (Return a, w') => k a w'
    | (Throw e, w') => (Throw e, w')
    end.

Notation "x <~ t ;; k" := (then_ t (fun x => k))
  (at level 61, t at next level, right associativity).

Definition start (cs : list call) : task unit :=
  fun w => (Return tt, {| flowClientInstance := flowClientInstance w;
                          calls := calls w ++ cs |}).

(** [setAuthUserClaims]: both calls of the array are started when it is
    called.  What the calls settle to is not part of the model: the handler
    does not await them, and a rejection of theirs reaches no handler of
    the program (the host may end the process on it, at a time of its own).
    The model gives the steps of the handler itself. *)
Definition setAuthUserClaims (userUid name lastName : string) : task unit :=
  start [ auth_updateUser userUid (name ++ " " ++ lastName)%string;
          auth_setCustomUserClaims userUid name lastName ].

Module User.
Record t : Type := { name : string; lastName : string; email : string }.
End User.

(** The event of a created document: [event.params.userId] and
    [event.data?.data()], [undefined] when the event has no snapshot. *)
Record event : Type := {
  userId : string;
  data : option User.t
}.

Section Handler.

(** The environment of the process, the transport, what a write to a
    document settles to, and the message of the [TypeError] of
    destructuring [undefined]. *)
Variable env : environment.
Variable fetch : fetch_request -> completion Response.
Variable firestore : string -> string -> value -> completion unit.
Variable cannot_destructure : string.

(** [insertFlowCustomer] *)
Definition insertFlowCustomer (userUid : string) (flowCustomer : value)
  : task unit :=
  fun w =>
    (firestore "flow-customers" userUid flowCustomer,
     {| flowClientInstance := flowClientInstance w;
        calls := calls w
                 ++ [firestore_set "flow-customers" userUid flowCustomer] |}).

(** [getFlowClient()] on the world's module variable. *)
Definition the_client : task FlowClient.t :=
  fun w =>
    let (result, instance) := getFlowClient env (flowClientInstance w) in
    (result, {| flowClientInstance := instance; calls := calls w |}).

(** The handler of [onUserCreated].  [setAuthUserClaims] is not awaited:
    its calls are started and the handler goes on, whatever they settle
    to. *)
Definition onUserCreated (e : event) : task unit :=
  match data e with
  | None => fun w => (Throw (Error cannot_destructure), w)
  | Some user =>
      _ <~ setAuthUserClaims (userId e) (User.name user) (User.lastName user) ;;
      flowClient <~ the_client ;;
      flowCustomer <~ (fun w =>
        (createCustomer fetch (FlowClient.config flowClient)
           {| CustomerCreateRequest.name :=
                (User.name user ++ " " ++ User.lastName user)%string;
              CustomerCreateRequest.email := User.email user;
              CustomerCreateRequest.externalId := userId e |}, w)) ;;
      insertFlowCustomer (userId e) flowCustomer
  end.

End Handler.

(* ================================================================== *)
(** * The vocabulary of the statements *)

(** ** Orders and arrangements of entries *)

(** Ascending code-unit order on names. *)
Definition name_le (a b : string) : Prop := code_unit_compare a b <> Gt.

(** A name immediately followed by the string form of its value. *)
Definition pair_string (kv : string * scalar) : string :=
  (fst kv ++ String_of (snd kv))%string.

(** Entries in ascending order of their names. *)
Definition entries_sorted (es : list (string * scalar)) : Prop :=
  StronglySorted name_le (map fst es).

(** The comparator of [sortedKeys], on entries. *)
Definition entry_compare (x y : string * scalar) : comparison :=
  code_unit_compare (fst x) (fst y).

(** ** What is signed and what is transmitted *)

(** The names in the order the signer concatenates them. *)
Definition signed_names (config : FlowConfig) (params : Obj.t scalar)
  : list string :=
  sortedKeys (paramsWithApiKey config params).

(** The names in the order they are serialized for the wire. *)
Definition transmitted_names (config : FlowConfig) (params : Obj.t scalar)
  : list string :=
  map fst (sortedEntries (signedParams config params)).

(** A sequence of names, the appended signature entry apart. *)
Definition without_s (names : list string) : list string :=
  filter (fun k => negb (String.eqb k "s")) names.

(** The parameter sets the client builds. *)
Inductive operation : Type :=
| CreateCustomer (request : CustomerCreateRequest.t)
| RegisterCustomer (request : CustomerRegisterRequest.t)
| GetRegisterStatus (request : CustomerRegisterStatusRequest.t)
| ChargeCustomer (request : CustomerChargeRequest.t).

Definition operation_params (op : operation) : Obj.t scalar :=
  match op with
  | CreateCustomer r => createCustomer_params r
  | RegisterCustomer r => registerCustomer_params r
  | GetRegisterStatus r => getRegisterStatus_params r
  | ChargeCustomer r => chargeCustomer_params r
  end.

(** The claim of C3 at one parameter set. *)
Definition same_name_sequence (config : FlowConfig) (params : Obj.t scalar)
  : Prop :=
  without_s (transmitted_names config params) = signed_names config params.

(** An entry as it is serialized. *)
Definition wire_entry (kv : string * scalar) : string * string :=
  (fst kv, String_of (snd kv)).

(** The claim of C4 at one parameter set: the API key is merged under
    [apiKey], the signed set does not name [s], and what is transmitted is
    the signed set and, under [s], its signature. *)
Definition dispatch_contract (config : FlowConfig) (params : Obj.t scalar)
  : Prop :=
  let merged := paramsWithApiKey config params in
  Permutation merged (("apiKey", SStr (apiKey config)) :: params) /\
  ~ In "s" (Obj.keys merged) /\
  Permutation (sortedEntries (signedParams config params))
    (map wire_entry merged ++ [("s", sign config merged)]) /\
  Permutation (transmitted_names config params) (Obj.keys merged ++ ["s"]).

(** ** Requests, transports and responses of the scenarios *)

Definition jane : CustomerCreateRequest.t :=
  {| CustomerCreateRequest.name := "Jane Doe";
     CustomerCreateRequest.email := "jane@example.com";
     CustomerCreateRequest.externalId := "u123" |}.

(** The string to sign for [jane] under the API key [K]. *)
Definition jane_toSign (K : string) : string :=
  ("apiKey" ++ K ++ "emailjane@example.comexternalIdu123nameJane Doe")%string.

(** A charge request from its four required and four optional fields. *)
Definition charge_request (customerId : string) (amount : Z)
  (currency subject : string)
  (commerceOrder email urlConfirmation urlReturn : option string)
  : CustomerChargeRequest.t :=
  {| CustomerChargeRequest.customerId := customerId;
     CustomerChargeRequest.amount := amount;
     CustomerChargeRequest.currency := currency;
     CustomerChargeRequest.subject := subject;
     CustomerChargeRequest.commerceOrder := commerceOrder;
     CustomerChargeRequest.email := email;
     CustomerChargeRequest.urlConfirmation := urlConfirmation;
     CustomerChargeRequest.urlReturn := urlReturn |}.

(** The optional parameters of a charge. *)
Definition optional_names : list string :=
  ["commerceOrder"; "email"; "urlConfirmation"; "urlReturn"].

(** Whether [name] is among the serialized entries with an empty value. *)
Definition sent_empty (entries : list (string * string)) (name : string)
  : bool :=
  existsb (fun kv => String.eqb (fst kv) name && String.eqb (snd kv) "")
          entries.

Definition test_config : FlowConfig :=
  {| apiKey := "K"; secretKey := "s3cr3t"; baseUrl := "https://flow.test" |}.

(** A transport that answers every request with [response]. *)
Definition answering (response : Response)
  : fetch_request -> completion Response :=
  fun _ => Return response.

(** A transport that fails every request with [e]. *)
Definition failing (e : thrown) : fetch_request -> completion Response :=
  fun _ => Throw e.

Definition declined : Response :=
  {| status := 200;
     json_body := Parsed (Object [("code", Num 7);
                                  ("message", Str "declined")]) |}.

Definition created_body : value :=
  Object [("customerId", Str "c1"); ("name", Str "A");
          ("email", Str "a@b.com"); ("status", Str "ok")].

Definition created : Response :=
  {| status := 200; json_body := Parsed created_body |}.

Definition bad_request : Response :=
  {| status := 400;
     json_body := Parsed (Object [("code", Num 42);
                                  ("message", Str "bad request")]) |}.

Definition unavailable : Response :=
  {| status := 503;
     json_body := Unparseable "Unexpected token < in JSON at position 0" |}.

(** ** Alphabets *)

(** Every character of a string satisfies [P]. *)
Fixpoint string_forall (P : ascii -> bool) (s : string) : bool :=
  match s with
  | EmptyString => true
  | String c s' => P c && string_forall P s'
  end.

(** The digits and the letters [a] to [f]. *)
Definition is_lower_hex (c : ascii) : bool :=
  let u := Bytes.code c in
  ((48 <=? u) && (u <=? 57)) || ((97 <=? u) && (u <=? 102)).

(** The characters the serializer leaves as they are. *)
Definition is_unreserved (c : ascii) : bool :=
  URLSearchParams.unreserved (Bytes.code c).

(** The characters of an encoded name or value: the unreserved ones, the
    plus sign and the percent sign. *)
Definition is_form_safe (c : ascii) : bool :=
  is_unreserved c || (Bytes.code c =? 43) || (Bytes.code c =? 37).

(** The separators of a form: the ampersand and the equals sign. *)
Definition is_separator (c : ascii) : bool :=
  (Bytes.code c =? 38) || (Bytes.code c =? 61).

(** ** The handler *)

(** The customer the handler creates for the user of an event. *)
Definition customer_of (e : event) (user : User.t) : CustomerCreateRequest.t :=
  {| CustomerCreateRequest.name :=
       (User.name user ++ " " ++ User.lastName user)%string;
     CustomerCreateRequest.email := User.email user;
     CustomerCreateRequest.externalId := userId e |}.

(** The two calls of [setAuthUserClaims] for the user of an event. *)
Definition auth_calls (e : event) (user : User.t) : list call :=
  [ auth_updateUser (userId e)
      (User.name user ++ " " ++ User.lastName user)%string;
    auth_setCustomUserClaims (userId e) (User.name user) (User.lastName user) ].

(** A variable of the environment that is set to a non-empty string. *)
Definition set_to (env : environment) (variable value : string) : Prop :=
  env variable = Some value /\ value <> "".

(** A byte. *)
Definition is_byte (b : Z) : Prop := 0 <= b < 256.

(** An environment with the three variables, and one without. *)
Definition valid_env : environment :=
  fun variable =>
    if String.eqb variable "FLOW_API_KEY" then Some "K"
    else if String.eqb variable "FLOW_SECRET_KEY" then Some "s3cr3t"
    else if String.eqb variable "FLOW_BASE_URL" then Some "https://flow.test"
    else None.

Definition empty_env : environment := fun _ => None.

(** A Firestore that accepts every write, and the event of a created
    user. *)
Definition accepting : string -> string -> value -> completion unit :=
  fun _ _ _ => Return tt.

Definition ana_created : event :=
  {| userId := "u1";
     data := Some {| User.name := "Ana"; User.lastName := "Diaz";
                     User.email := "ana@example.com" |} |}.

(* ================================================================== *)
(** * Properties *)

(** ** The hash *)

(** Test vectors: FIPS 180-4 for the hash, RFC 4231 (case 2) for the
    HMAC, and a key longer than a block. *)
Example sha256_abc :
  Bytes.hex (SHA256.sha256 (Bytes.utf8 "abc"))
  = "ba7816bf8f01cfea414140de5dae2223b00361a396177a9cb410ff61f20015ad".
Proof. vm_compute. reflexivity. Qed.

Example hmac_rfc4231_2 :
  HmacSHA256 "what do ya want for nothing?" "Jefe"
  = "5bdcc146bf60754e6a042426089575c75a003f089d2739839dec58b964ec3843".
Proof. vm_compute. reflexivity. Qed.

Example hmac_long_key :
  HmacSHA256 "apiKeyKemailjane@example.comexternalIdu123nameJane Doe"
    "0123456789012345678901234567890123456789012345678901234567890123456789"
  = "9ec4167700585eda9f1cb42fcc167f3be7041d921c2258f74d51b0d2acf2f808".
Proof. vm_compute. reflexivity. Qed.

(** ** The code-unit order on names *)

Lemma ascii_compare_refl (c : ascii) : Ascii.compare c c = Eq.
Proof. unfold Ascii.compare. apply N.compare_refl. Qed.

Lemma compare_refl (a : string) : code_unit_compare a a = Eq.
Proof.
  unfold code_unit_compare.
  induction a as [|c a IH]; simpl; [reflexivity|].
  now rewrite ascii_compare_refl.
Qed.

Lemma compare_Gt_Lt (a b : string) :
  code_unit_compare a b = Gt -> code_unit_compare b a = Lt.
Proof.
  unfold code_unit_compare. intros H.
  rewrite String.compare_antisym, H. reflexivity.
Qed.

Lemma compare_Lt_Gt (a b : string) :
  code_unit_compare a b = Lt -> code_unit_compare b a = Gt.
Proof.
  unfold code_unit_compare. intros H.
  rewrite String.compare_antisym, H. reflexivity.
Qed.

Lemma compare_Gt_trans (a b c : string) :
  code_unit_compare a b = Gt -> code_unit_compare b c = Gt ->
  code_unit_compare a c = Gt.
Proof.
  unfold code_unit_compare.
  revert b c. induction a as [|x a IH]; intros [|y b] [|z c]; simpl;
    try discriminate; try reflexivity.
  unfold Ascii.compare.
  destruct (N.compare_spec (N_of_ascii x) (N_of_ascii y)) as [Exy|Lxy|Gxy];
    try discriminate;
  destruct (N.compare_spec (N_of_ascii y) (N_of_ascii z)) as [Eyz|Lyz|Gyz];
    try discriminate; intros Hab Hbc.
  - rewrite Exy, Eyz, N.compare_refl. now apply IH with b.
  - rewrite Exy. now apply N.compare_gt_iff in Gyz as ->.
  - rewrite <- Eyz. now apply N.compare_gt_iff in Gxy as ->.
  - assert (H : (N_of_ascii z < N_of_ascii x)%N) by lia.
    now apply N.compare_gt_iff in H as ->.
Qed.

Lemma name_le_refl (a : string) : name_le a a.
Proof. unfold name_le. now rewrite compare_refl. Qed.

Lemma name_le_antisym (a b : string) : name_le a b -> name_le b a -> a = b.
Proof.
  unfold name_le. intros Hab Hba.
  destruct (code_unit_compare a b) eqn:E.
  - now apply String.compare_eq_iff.
  - apply compare_Lt_Gt in E. contradiction.
  - contradiction.
Qed.

Lemma name_le_trans (a b c : string) :
  name_le a b -> name_le b c -> name_le a c.
Proof.
  unfold name_le. intros Hab Hbc Hac.
  destruct (code_unit_compare a b) eqn:Eab; [| |contradiction].
  - apply String.compare_eq_iff in Eab. subst b. contradiction.
  - destruct (code_unit_compare b c) eqn:Ebc; [| |contradiction].
    + apply String.compare_eq_iff in Ebc. subst c. congruence.
    + apply compare_Lt_Gt in Eab, Ebc.
      apply compare_Gt_Lt in Hac. apply compare_Lt_Gt in Hac.
      pose proof (compare_Gt_trans _ _ _ Ebc Eab) as H.
      apply compare_Gt_Lt in H. congruence.
Qed.

(** ** The sort *)

Section SortFacts.

Context {A : Type} (cmp : A -> A -> comparison).

Lemma insert_perm (x : A) (l : list A) :
  Permutation (insert cmp x l) (x :: l).
Proof.
  induction l as [|y l IH]; simpl; [reflexivity|].
  destruct (cmp x y); try reflexivity.
  rewrite IH. apply perm_swap.
Qed.

Lemma Array_sort_perm (l : list A) : Permutation (Array_sort cmp l) l.
Proof.
  induction l as [|x l IH]; simpl; [reflexivity|].
  rewrite insert_perm. now constructor.
Qed.

(** Sorting commutes with a projection the comparator factors through. *)
Lemma insert_map {B} (f : A -> B) (cmpB : B -> B -> comparison) :
  (forall x y, cmp x y = cmpB (f x) (f y)) ->
  forall x l, map f (insert cmp x l) = insert cmpB (f x) (map f l).
Proof.
  intros Hc x l. induction l as [|y l IH]; simpl; [reflexivity|].
  rewrite <- Hc. destruct (cmp x y); simpl; congruence.
Qed.

Lemma Array_sort_map {B} (f : A -> B) (cmpB : B -> B -> comparison) :
  (forall x y, cmp x y = cmpB (f x) (f y)) ->
  forall l, map f (Array_sort cmp l) = Array_sort cmpB (map f l).
Proof.
  intros Hc l. induction l as [|x l IH]; simpl; [reflexivity|].
  rewrite (insert_map f cmpB Hc). now rewrite IH.
Qed.

End SortFacts.

Lemma insert_sorted (x : string) (l : list string) :
  StronglySorted name_le l ->
  StronglySorted name_le (insert code_unit_compare x l).
Proof.
  induction 1 as [|y l Hl IH Hy]; simpl.
  - repeat constructor.
  - destruct (code_unit_compare x y) eqn:E.
    + apply String.compare_eq_iff in E. subst y.
      constructor; [now constructor|].
      constructor; [apply name_le_refl | assumption].
    + assert (Hxy : name_le x y) by (unfold name_le; congruence).
      constructor; [now constructor|].
      constructor; [assumption|].
      eapply Forall_impl; [|exact Hy].
      intros z Hz. now apply name_le_trans with y.
    + constructor; [assumption|].
      assert (Hyx : name_le y x).
      { unfold name_le. apply compare_Gt_Lt in E. congruence. }
      eapply Permutation_Forall; [symmetry; apply insert_perm|].
      now constructor.
Qed.

Lemma Array_sort_sorted (l : list string) :
  StronglySorted name_le (Array_sort code_unit_compare l).
Proof.
  induction l as [|x l IH]; simpl; [constructor|].
  now apply insert_sorted.
Qed.

(** Two sorted arrangements of the same names are the same list. *)
Lemma sorted_perm_unique (l1 l2 : list string) :
  Permutation l1 l2 ->
  StronglySorted name_le l1 -> StronglySorted name_le l2 -> l1 = l2.
Proof.
  revert l2. induction l1 as [|a l1 IH]; intros l2 HP H1 H2.
  - apply Permutation_nil in HP. now subst.
  - destruct l2 as [|b l2].
    + symmetry in HP. now apply Permutation_nil in HP.
    + inversion H1 as [|? ? S1 F1]; subst.
      inversion H2 as [|? ? S2 F2]; subst.
      assert (a = b) as ->.
      { assert (Ha : In a (b :: l2))
          by (eapply Permutation_in; [exact HP | now left]).
        assert (Hb : In b (a :: l1))
          by (eapply Permutation_in; [symmetry; exact HP | now left]).
        destruct Ha as [->|Ha]; [reflexivity|].
        destruct Hb as [->|Hb]; [reflexivity|].
        rewrite Forall_forall in F1, F2.
        apply name_le_antisym; auto. }
      f_equal. apply IH; auto.
      now apply Permutation_cons_inv in HP.
Qed.

Lemma sortedKeys_unique (params : Obj.t scalar) (ks : list string) :
  Permutation ks (Obj.keys params) -> StronglySorted name_le ks ->
  sortedKeys params = ks.
Proof.
  intros HP HS. apply sorted_perm_unique.
  - unfold sortedKeys. rewrite Array_sort_perm. now symmetry.
  - apply Array_sort_sorted.
  - assumption.
Qed.

(** ** Objects *)

Lemma get_Some_In {V} (k : string) (v : V) (o : Obj.t V) :
  Obj.get k o = Some v -> In (k, v) o.
Proof.
  induction o as [|[k' w] o IH]; simpl; [discriminate|].
  destruct (String.eqb_spec k k') as [->|Hne].
  - intros [= ->]. now left.
  - intros H. right. auto.
Qed.

Lemma get_None_iff {V} (k : string) (o : Obj.t V) :
  Obj.get k o = None <-> ~ In k (Obj.keys o).
Proof.
  induction o as [|[k' w] o IH]; simpl; [tauto|].
  destruct (String.eqb_spec k k') as [->|Hne].
  - split; [discriminate | intros H; exfalso; apply H; now left].
  - rewrite IH. split; [intros H [E|Hin]; [congruence|tauto] | tauto].
Qed.

Lemma get_In {V} (k : string) (v : V) (o : Obj.t V) :
  Obj.wf o -> In (k, v) o -> Obj.get k o = Some v.
Proof.
  unfold Obj.wf.
  induction o as [|[k' w] o IH]; simpl; [tauto|].
  intros Hnd Hin. inversion Hnd as [|? ? Hk' Hnd']; subst.
  destruct Hin as [[= -> ->]|Hin].
  - now rewrite String.eqb_refl.
  - destruct (String.eqb_spec k k') as [->|Hne]; [|auto].
    exfalso. apply Hk'. change (In (fst (k', v)) (map fst o)).
    now apply in_map.
Qed.

Lemma wf_perm {V} (o o' : Obj.t V) :
  Permutation o o' -> Obj.wf o -> Obj.wf o'.
Proof.
  unfold Obj.wf, Obj.keys. intros HP.
  apply Permutation_NoDup. now apply Permutation_map.
Qed.

(** Reading a property does not depend on the property order. *)
Lemma get_perm {V} (k : string) (o o' : Obj.t V) :
  Obj.wf o -> Permutation o o' -> Obj.get k o' = Obj.get k o.
Proof.
  intros Hwf HP.
  destruct (Obj.get k o) as [v|] eqn:E.
  - apply get_In; [now apply wf_perm with o|].
    eapply Permutation_in; [exact HP|]. now apply get_Some_In.
  - apply get_None_iff. apply get_None_iff in E.
    intros Hin. apply E.
    eapply Permutation_in; [|exact Hin].
    unfold Obj.keys. apply Permutation_map. now symmetry.
Qed.

Lemma set_fresh {V} (k : string) (v : V) (o : Obj.t V) :
  ~ In k (Obj.keys o) -> Obj.set k v o = o ++ [(k, v)].
Proof.
  induction o as [|[k' w] o IH]; simpl; [reflexivity|].
  intros H. destruct (String.eqb_spec k k') as [->|Hne].
  - exfalso. apply H. now left.
  - f_equal. apply IH. tauto.
Qed.

Lemma keys_set_present {V} (k : string) (v : V) (o : Obj.t V) :
  In k (Obj.keys o) -> Obj.keys (Obj.set k v o) = Obj.keys o.
Proof.
  induction o as [|[k' w] o IH]; simpl; [tauto|].
  intros H. destruct (String.eqb_spec k k') as [->|Hne]; simpl.
  - reflexivity.
  - f_equal. apply IH. destruct H; congruence.
Qed.

(** Spreading an object over one that shares no name with it appends its
    properties. *)
Lemma spread_fresh {V} (src base : Obj.t V) :
  Obj.wf src ->
  (forall k, In k (Obj.keys src) -> ~ In k (Obj.keys base)) ->
  Obj.spread base src = base ++ src.
Proof.
  unfold Obj.spread, Obj.wf. revert base.
  induction src as [|[k v] src IH]; intros base Hnd Hdisj; simpl.
  - now rewrite app_nil_r.
  - inversion Hnd as [|? ? Hk Hnd']; subst.
    rewrite set_fresh by (apply Hdisj; now left).
    rewrite IH; [now rewrite <- app_assoc | assumption |].
    intros k' Hin Hin'. unfold Obj.keys in Hin'.
    rewrite map_app in Hin'. apply in_app_or in Hin'.
    destruct Hin' as [Hin'|[<-|[]]].
    + apply (Hdisj k'); [now right | assumption].
    + contradiction.
Qed.

Lemma spread_empty {V} (o : Obj.t V) : Obj.wf o -> Obj.spread [] o = o.
Proof. intros H. rewrite spread_fresh; auto. Qed.

(** ** The string to sign *)

Lemma toSign_of_sorted_entries (params : Obj.t scalar)
  (es : list (string * scalar)) :
  Obj.wf params -> Permutation es (Obj.entries params) -> entries_sorted es ->
  toSign params = String.concat "" (map pair_string es).
Proof.
  intros Hwf HP HS. unfold toSign.
  rewrite (sortedKeys_unique params (map fst es)); [| |exact HS].
  - rewrite map_map. f_equal. apply map_ext_in.
    intros [k v] Hin. simpl. unfold pair_string. simpl.
    rewrite (get_In k v params Hwf); [reflexivity|].
    eapply Permutation_in; [exact HP | exact Hin].
  - unfold Obj.keys. now apply Permutation_map.
Qed.

(** Sorting the entries by name gives a sorted arrangement. *)
Lemma sorted_entries_exist (params : Obj.t scalar) :
  let es := Array_sort entry_compare (Obj.entries params) in
  Permutation es (Obj.entries params) /\ entries_sorted es.
Proof.
  split.
  - apply Array_sort_perm.
  - unfold entries_sorted.
    rewrite (Array_sort_map entry_compare fst code_unit_compare)
      by reflexivity.
    apply Array_sort_sorted.
Qed.

(** C1: the string fed to the HMAC is [toSign], the concatenation, without
    delimiters, of each name immediately followed by the string form of its
    value, the names taken in ascending code-unit order: it equals that
    concatenation over every arrangement of the entries that is sorted by
    name, and one exists.  For [{b: "2", a: "1"}] it is ["a1b2"], in either
    insertion order. *)
Theorem toSign_canonical (config : FlowConfig) (params : Obj.t scalar) :
  Obj.wf params ->
  sign config params = HmacSHA256 (toSign params) (secretKey config) /\
  (exists es, Permutation es (Obj.entries params) /\ entries_sorted es) /\
  (forall es,
      Permutation es (Obj.entries params) -> entries_sorted es ->
      toSign params = String.concat "" (map pair_string es)) /\
  toSign (Obj.literal [("b", SStr "2"); ("a", SStr "1")]) = "a1b2" /\
  toSign (Obj.literal [("a", SStr "1"); ("b", SStr "2")]) = "a1b2".
Proof.
  intros Hwf. split; [|split; [|split; [|split]]].
  - reflexivity.
  - eexists. apply (sorted_entries_exist params).
  - intros es. now apply toSign_of_sorted_entries.
  - reflexivity.
  - reflexivity.
Qed.

Lemma toSign_canonical_witness :
  let params := Obj.literal [("b", SStr "2"); ("a", SNum 1)] in
  let es := [("a", SNum 1); ("b", SStr "2")] in
  Obj.wf params /\
  toSign params = String.concat "" (map pair_string es).
Proof.
  assert (Hwf : Obj.wf (Obj.literal [("b", SStr "2"); ("a", SNum 1)])).
  { repeat constructor; simpl; intuition discriminate. }
  split; [exact Hwf|].
  destruct (toSign_canonical test_config _ Hwf) as [_ [_ [H _]]].
  apply H.
  - apply perm_swap.
  - repeat constructor; discriminate.
Defined.

(** C2: the signature is a function of the parameter set and the secret
    key alone, and does not depend on the order in which the entries were
    inserted. *)
Theorem sign_order_independent (config config' : FlowConfig)
  (params params' : Obj.t scalar) :
  Obj.wf params ->
  Permutation params params' ->
  secretKey config = secretKey config' ->
  toSign params' = toSign params /\
  sign config' params' = sign config params.
Proof.
  intros Hwf HP Hkey.
  assert (E : toSign params' = toSign params).
  { unfold toSign.
    rewrite (sortedKeys_unique params' (sortedKeys params)).
    - apply (f_equal (String.concat "")). apply map_ext.
      intros k. now rewrite (get_perm k params params').
    - unfold sortedKeys. rewrite Array_sort_perm.
      unfold Obj.keys. now apply Permutation_map.
    - apply Array_sort_sorted. }
  split; [exact E|].
  unfold sign. now rewrite E, Hkey.
Qed.

Lemma sign_order_independent_witness :
  let config := {| apiKey := "K"; secretKey := "k"; baseUrl := "" |} in
  sign config (Obj.literal [("a", SStr "1"); ("b", SStr "2")])
  = sign config (Obj.literal [("b", SStr "2"); ("a", SStr "1")]).
Proof.
  apply sign_order_independent.
  - repeat constructor; simpl; intuition discriminate.
  - apply perm_swap.
  - reflexivity.
Defined.

(** ** Signed names and transmitted names *)

(** Both branches of [makeRequest] serialize [sortedEntries]. *)
Lemma request_of_serializes (config : FlowConfig) (endpoint : string)
  (params : Obj.t scalar) :
  let wire := URLSearchParams.toString
                (sortedEntries (signedParams config params)) in
  req_url (request_of config endpoint GET params)
    = ((baseUrl config ++ endpoint) ++ "?" ++ wire)%string /\
  req_body (request_of config endpoint GET params) = None /\
  req_url (request_of config endpoint POST params)
    = (baseUrl config ++ endpoint)%string /\
  req_body (request_of config endpoint POST params) = Some wire.
Proof. repeat split. Qed.

Lemma transmitted_names_sort (config : FlowConfig) (params : Obj.t scalar) :
  transmitted_names config params
  = Array_sort Collation.localeCompare
      (Obj.keys (signedParams config params)).
Proof.
  unfold transmitted_names, sortedEntries, Obj.entries, Obj.keys.
  rewrite map_map. simpl.
  now apply Array_sort_map.
Qed.

(** Case analysis on a request: every optional field is absent, empty or
    a non-empty string. *)
Ltac split_optional o :=
  destruct o as [[|? ?]|].

Ltac split_operation op :=
  destruct op as [[? ? ?]|[? ?]|[?]|[? ? ? ? co em uc ur]];
  [ | | | split_optional co; split_optional em;
          split_optional uc; split_optional ur ].

Lemma operation_keys_signed (config : FlowConfig) (op : operation) :
  without_s (Array_sort Collation.localeCompare
               (Obj.keys (signedParams config (operation_params op))))
  = sortedKeys (paramsWithApiKey config (operation_params op)).
Proof.
  unfold signedParams.
  generalize (sign config (paramsWithApiKey config (operation_params op))).
  intros signature. destruct config as [K secret base].
  split_operation op; vm_compute; reflexivity.
Qed.

(** C3, as amended: the signing sort compares code units and the wire sort
    uses [localeCompare]; on the parameter sets of the four operations the
    two give the same sequence of names, the appended [s] apart. *)
Theorem operations_same_name_sequence (config : FlowConfig) (op : operation) :
  same_name_sequence config (operation_params op).
Proof.
  unfold same_name_sequence, signed_names.
  rewrite transmitted_names_sort. apply operation_keys_signed.
Qed.

(** C3 as stated fails: the two comparators order ["B"] and ["a"]
    differently, and so do the two name sequences of [{B: "1", a: "2"}]. *)
Lemma name_sequences_differ :
  let config := {| apiKey := "K"; secretKey := "k"; baseUrl := "" |} in
  let params := Obj.literal [("B", SStr "1"); ("a", SStr "2")] in
  code_unit_compare "B" "a" = Lt /\
  Collation.localeCompare "B" "a" = Gt /\
  signed_names config params = ["B"; "a"; "apiKey"] /\
  without_s (transmitted_names config params) = ["a"; "apiKey"; "B"] /\
  ~ same_name_sequence config params.
Proof.
  repeat split; try (vm_compute; reflexivity).
  unfold same_name_sequence. vm_compute. discriminate.
Qed.

(** ** The dispatch protocol *)

Lemma paramsWithApiKey_fresh (config : FlowConfig) (params : Obj.t scalar) :
  Obj.wf params -> ~ In "apiKey" (Obj.keys params) ->
  paramsWithApiKey config params = ("apiKey", SStr (apiKey config)) :: params.
Proof.
  intros Hwf Hk. unfold paramsWithApiKey.
  rewrite spread_fresh; [reflexivity | assumption |].
  intros k Hin [<-|[]]. contradiction.
Qed.

Lemma sortedEntries_perm (signed : Obj.t scalar) :
  Permutation (sortedEntries signed) (map wire_entry signed).
Proof.
  unfold sortedEntries, Obj.entries.
  apply Permutation_map. apply Array_sort_perm.
Qed.

(** C4, as amended: for a parameter set that names neither [apiKey] nor
    [s], the API key is merged under [apiKey] before signing, the signature
    is computed over that merged set, which has no [s], and is appended
    under [s]: the transmitted entries are those of the merged set and the
    signature, and the transmitted names are the signed names and [s]. *)
Theorem makeRequest_dispatch_contract (config : FlowConfig)
  (params : Obj.t scalar) :
  Obj.wf params ->
  ~ In "apiKey" (Obj.keys params) ->
  ~ In "s" (Obj.keys params) ->
  dispatch_contract config params.
Proof.
  intros Hwf Hk Hs. unfold dispatch_contract.
  assert (Hm : paramsWithApiKey config params
               = ("apiKey", SStr (apiKey config)) :: params)
    by now apply paramsWithApiKey_fresh.
  assert (Hwf' : Obj.wf (paramsWithApiKey config params)).
  { rewrite Hm. constructor; assumption. }
  assert (Hs' : ~ In "s" (Obj.keys (paramsWithApiKey config params))).
  { rewrite Hm. simpl. intros [E|H]; [discriminate | contradiction]. }
  assert (Hsigned : signedParams config params
                    = paramsWithApiKey config params
                        ++ [("s", SStr (sign config
                                          (paramsWithApiKey config params)))]).
  { unfold signedParams. rewrite spread_empty by assumption.
    now apply set_fresh. }
  split; [now rewrite Hm|]. split; [exact Hs'|]. split.
  - rewrite sortedEntries_perm, Hsigned, map_app. reflexivity.
  - unfold transmitted_names.
    rewrite sortedEntries_perm, Hsigned, map_map. simpl.
    unfold Obj.keys. now rewrite map_app.
Qed.

Lemma makeRequest_dispatch_contract_witness :
  dispatch_contract {| apiKey := "K"; secretKey := "k"; baseUrl := "" |}
    (Obj.literal [("token", SStr "t1")]).
Proof.
  apply makeRequest_dispatch_contract.
  - repeat constructor; simpl; intuition discriminate.
  - simpl; intuition discriminate.
  - simpl; intuition discriminate.
Defined.

(** C4 as stated fails on a parameter set that already names [s]: that
    entry is part of the signed string, and the transmitted names are the
    signed names, with nothing added.  On one that names [apiKey] it is
    the caller's value that is signed and sent, not the configured key. *)
Lemma dispatch_contract_fails_on_reserved_name :
  let config := {| apiKey := "K"; secretKey := "k"; baseUrl := "" |} in
  let params := Obj.literal [("s", SStr "x")] in
  let params' := Obj.literal [("apiKey", SStr "other")] in
  toSign (paramsWithApiKey config params) = "apiKeyKsx" /\
  transmitted_names config params = ["apiKey"; "s"] /\
  signed_names config params = ["apiKey"; "s"] /\
  ~ dispatch_contract config params /\
  paramsWithApiKey config params' = [("apiKey", SStr "other")] /\
  ~ dispatch_contract config params'.
Proof.
  repeat split; try (vm_compute; reflexivity).
  - intros [_ [H _]]. apply H. vm_compute. tauto.
  - intros [H _]. apply Permutation_length in H. discriminate.
Qed.

(** The four operations stay clear of the reserved names. *)
Lemma operation_params_unreserved (op : operation) :
  Obj.wf (operation_params op) /\
  ~ In "apiKey" (Obj.keys (operation_params op)) /\
  ~ In "s" (Obj.keys (operation_params op)).
Proof.
  split_operation op;
    (split; [|split]);
    try (cbn; intuition discriminate);
    repeat constructor; cbn; intuition discriminate.
Qed.

(** ** Creating a customer *)

(** C5, as amended: creating the customer Jane Doe signs the string
    [apiKey<K>emailjane@example.comexternalIdu123nameJane Doe] and sends, by
    POST to [/customer/create], the four parameters and under [s] the
    HMAC-SHA256 of that string under the secret key, in lowercase
    hexadecimal. *)
Theorem createCustomer_jane_signed
  (fetch : fetch_request -> completion Response) (config : FlowConfig) :
  let params := createCustomer_params jane in
  let signature := HmacSHA256 (jane_toSign (apiKey config)) (secretKey config) in
  let entries := [ ("apiKey", apiKey config);
                   ("email", "jane@example.com");
                   ("externalId", "u123");
                   ("name", "Jane Doe");
                   ("s", signature) ] in
  toSign (paramsWithApiKey config params) = jane_toSign (apiKey config) /\
  sortedEntries (signedParams config params) = entries /\
  createCustomer fetch config jane
  = try_catch
      (response <- fetch
         {| req_url := (baseUrl config ++ "/customer/create")%string;
            req_method := POST;
            req_content_type := "application/x-www-form-urlencoded";
            req_body := Some (URLSearchParams.toString entries) |} ;;
       read_response response)
      on_error.
Proof.
  destruct config as [K secret base]. simpl.
  assert (E : toSign (paramsWithApiKey
                        {| apiKey := K; secretKey := secret; baseUrl := base |}
                        (createCustomer_params jane)) = jane_toSign K)
    by reflexivity.
  assert (S : sortedEntries
                (signedParams
                   {| apiKey := K; secretKey := secret; baseUrl := base |}
                   (createCustomer_params jane))
              = [ ("apiKey", K); ("email", "jane@example.com");
                  ("externalId", "u123"); ("name", "Jane Doe");
                  ("s", HmacSHA256 (jane_toSign K) secret) ]).
  { unfold signedParams, sign. rewrite E. simpl secretKey.
    generalize (HmacSHA256 (jane_toSign K) secret). intros signature.
    reflexivity. }
  split; [exact E|]. split; [exact S|].
  unfold createCustomer, makeRequest, request_of. now rewrite S.
Qed.

(** The signature for the API key [K] and the secret key [s3cr3t], against
    a reference value of HMAC-SHA256 computed independently, and the body
    that is sent. *)
Example createCustomer_jane_reference :
  let config := {| apiKey := "K"; secretKey := "s3cr3t";
                   baseUrl := "https://flow.test" |} in
  sign config (paramsWithApiKey config (createCustomer_params jane))
  = "3eedeb8fe48273349fc1098e1d221b670a36a23d58afbfbd3eba40196750c0b5" /\
  req_body (request_of config "/customer/create" POST
              (createCustomer_params jane))
  = Some ("apiKey=K&email=jane%40example.com&externalId=u123&name=Jane+Doe&s="
          ++ "3eedeb8fe48273349fc1098e1d221b670a36a23d58afbfbd3eba40196750c0b5")%string.
Proof. split; vm_compute; reflexivity. Qed.

(** C5 as stated fails: the string to sign has no space after [email] and
    keeps the case of the name. *)
Lemma createCustomer_jane_not_lowercased :
  let config := {| apiKey := "K"; secretKey := "s3cr3t";
                   baseUrl := "https://flow.test" |} in
  toSign (paramsWithApiKey config (createCustomer_params jane))
  = "apiKeyKemailjane@example.comexternalIdu123nameJane Doe" /\
  toSign (paramsWithApiKey config (createCustomer_params jane))
  <> "apiKeyKemail jane@example.comexternalIdu123namejane doe".
Proof. split; [reflexivity | vm_compute; discriminate]. Qed.

(** ** Charging a customer *)

(** C6: [chargeCustomer] with none of the optional fields transmits
    exactly the names [customerId], [amount], [currency], [subject],
    [apiKey] and [s], each once and with the string form of its value, as
    the form it posts to [/customer/charge]; no optional name is sent. *)
Theorem chargeCustomer_required_only
  (fetch : fetch_request -> completion Response) (config : FlowConfig)
  (customerId : string) (amount : Z) (currency subject : string) :
  let request :=
    charge_request customerId amount currency subject None None None None in
  let params := chargeCustomer_params request in
  let entries :=
    [ ("amount", String_of (SNum amount));
      ("apiKey", apiKey config);
      ("currency", currency);
      ("customerId", customerId);
      ("s", sign config (paramsWithApiKey config params));
      ("subject", subject) ] in
  chargeCustomer fetch config request
  = try_catch
      (response <- fetch
         {| req_url := (baseUrl config ++ "/customer/charge")%string;
            req_method := POST;
            req_content_type := "application/x-www-form-urlencoded";
            req_body := Some (URLSearchParams.toString entries) |} ;;
       read_response response)
      on_error /\
  sortedEntries (signedParams config params) = entries /\
  Permutation (map fst entries)
    ["customerId"; "amount"; "currency"; "subject"; "apiKey"; "s"] /\
  Permutation (transmitted_names config params)
    ["customerId"; "amount"; "currency"; "subject"; "apiKey"; "s"].
Proof.
  intros request params entries.
  assert (S : sortedEntries (signedParams config params) = entries).
  { unfold signedParams, entries.
    generalize (sign config (paramsWithApiKey config params)).
    intros signature. reflexivity. }
  assert (P : Permutation (map fst entries)
                ["customerId"; "amount"; "currency"; "subject"; "apiKey"; "s"]).
  { simpl. apply Permutation_sym.
    change (Permutation
              (["customerId"; "amount"; "currency"; "subject"; "apiKey"]
                 ++ ["s"])
              (["amount"; "apiKey"; "currency"; "customerId"]
                 ++ "s" :: ["subject"])).
    rewrite <- Permutation_middle. apply Permutation_cons_app. simpl.
    apply Permutation_sym.
    apply (Permutation_cons_app ["customerId"]
             ["currency"; "subject"; "apiKey"]).
    apply (Permutation_cons_app ["customerId"; "currency"; "subject"] []).
    apply (Permutation_cons_app ["customerId"] ["subject"]).
    reflexivity. }
  split; [|split; [exact S|split; [exact P|]]].
  - unfold chargeCustomer, makeRequest, request_of.
    fold request. fold params. now rewrite S.
  - unfold transmitted_names. now rewrite S.
Qed.

(** C10: in [chargeCustomer] an optional field given as the empty string
    is treated as an absent one: the parameter set is the one built without
    the field, the name is not a property of it, and no optional name is
    ever transmitted with an empty value. *)
Theorem chargeCustomer_empty_optional_omitted (config : FlowConfig)
  (customerId : string) (amount : Z) (currency subject : string)
  (co em uc ur : option string) :
  let request := charge_request customerId amount currency subject in
  (chargeCustomer_params (request (Some "") em uc ur)
   = chargeCustomer_params (request None em uc ur) /\
   chargeCustomer_params (request co (Some "") uc ur)
   = chargeCustomer_params (request co None uc ur) /\
   chargeCustomer_params (request co em (Some "") ur)
   = chargeCustomer_params (request co em None ur) /\
   chargeCustomer_params (request co em uc (Some ""))
   = chargeCustomer_params (request co em uc None)) /\
  (Obj.get "commerceOrder" (chargeCustomer_params (request (Some "") em uc ur))
   = None /\
   Obj.get "email" (chargeCustomer_params (request co (Some "") uc ur))
   = None /\
   Obj.get "urlConfirmation" (chargeCustomer_params (request co em (Some "") ur))
   = None /\
   Obj.get "urlReturn" (chargeCustomer_params (request co em uc (Some "")))
   = None) /\
  forallb
    (fun name =>
       negb (sent_empty
               (sortedEntries
                  (signedParams config
                     (chargeCustomer_params (request co em uc ur))))
               name))
    optional_names = true.
Proof.
  intros request. split; [|split].
  - repeat split; reflexivity.
  - repeat split;
      split_optional co; split_optional em;
      split_optional uc; split_optional ur; reflexivity.
  - unfold signedParams.
    generalize (sign config
                  (paramsWithApiKey config
                     (chargeCustomer_params (request co em uc ur)))).
    intros signature. destruct config as [K secret base].
    split_optional co; split_optional em;
      split_optional uc; split_optional ur; vm_compute; reflexivity.
Qed.

(** ** Reading the response *)

Section Dispatch.

Variable fetch : fetch_request -> completion Response.
Variables (config : FlowConfig) (endpoint : string) (method : http_method).
Variable params : Obj.t scalar.

Let request := request_of config endpoint method params.
Let result := makeRequest fetch config endpoint method params.

Lemma makeRequest_response (response : Response) :
  fetch request = Return response ->
  result = try_catch (read_response response) on_error.
Proof.
  intros H. unfold result, makeRequest. fold request. now rewrite H.
Qed.

(** C7, as amended: on a 2xx response whose body is an object with a
    nonzero number under [code], the operation fails with exactly that
    code, and with the body's message when that is a non-empty string, or
    with ["API error"] when the message is empty or absent; on a 2xx
    response whose body has [code] 0 or no [code], it succeeds with the
    body. *)
Theorem makeRequest_2xx (response : Response) :
  fetch request = Return response ->
  ok response = true ->
  (forall props c,
      json_body response = Parsed (Object props) ->
      Obj.get "code" props = Some (Num c) -> c <> 0 ->
      (forall m, Obj.get "message" props = Some (Str m) ->
                 result = Throw (FlowApiError
                                   (if String.eqb m "" then "API error" else m)
                                   (Num c))) /\
      (Obj.get "message" props = None ->
       result = Throw (FlowApiError "API error" (Num c)))) /\
  (forall data,
      json_body response = Parsed data ->
      get_prop data "code" = Return (Num 0) \/
      get_prop data "code" = Return Undefined ->
      result = Return data).
Proof.
  intros Hf Hok. rewrite (makeRequest_response response Hf).
  unfold read_response, json. rewrite Hok. simpl negb. cbv iota.
  split.
  - intros props c Hb Hc Hnz. rewrite Hb. simpl.
    rewrite Hc. simpl.
    assert (Hz : (c =? 0) = false) by now apply Z.eqb_neq.
    rewrite Hz. simpl. split.
    + intros m Hm. rewrite Hm. simpl. unfold or_else. simpl.
      destruct (String.eqb m ""); reflexivity.
    + intros Hm. rewrite Hm. reflexivity.
  - intros data Hb Hc. rewrite Hb. simpl.
    destruct Hc as [Hc|Hc]; rewrite Hc; reflexivity.
Qed.

(** C8, as amended: on a non-2xx response whose body is an object with a
    number under [code] and a string under [message], the operation fails
    with the body's code when it is not 0 and with the HTTP status when it
    is, and with the body's message when it is not empty and with
    ["HTTP error <status>"] when it is; on a non-2xx response whose body
    is not JSON it fails with the HTTP status as code and the message
    ["Unknown error"]. *)
Theorem makeRequest_non_2xx (response : Response) :
  fetch request = Return response ->
  ok response = false ->
  (forall props c m,
      json_body response = Parsed (Object props) ->
      Obj.get "code" props = Some (Num c) ->
      Obj.get "message" props = Some (Str m) ->
      result = Throw (FlowApiError
                        (if String.eqb m ""
                         then "HTTP error " ++ Number_toString (status response)
                         else m)%string
                        (Num (if c =? 0 then status response else c)))) /\
  (forall syntax_error,
      json_body response = Unparseable syntax_error ->
      result = Throw (FlowApiError "Unknown error" (Num (status response)))).
Proof.
  intros Hf Hok. rewrite (makeRequest_response response Hf).
  unfold read_response, json. rewrite Hok. simpl negb. cbv iota.
  split.
  - intros props c m Hb Hc Hm. rewrite Hb. simpl.
    rewrite Hm, Hc. simpl. unfold or_else. simpl.
    destruct (String.eqb m ""), (c =? 0); reflexivity.
  - intros e Hb. rewrite Hb. simpl. unfold or_else. simpl.
    destruct (status response =? 0) eqn:E; simpl; [|reflexivity].
    apply Z.eqb_eq in E. now rewrite E.
Qed.

(** C9: an error thrown by the transport is signalled again as a failure
    with code 500 and that error's message; a [FlowApiError], thrown by
    the transport or raised while the response is read, is signalled
    unchanged. *)
Theorem makeRequest_catch :
  (forall message,
      fetch request = Throw (Error message) ->
      result = Throw (FlowApiError message (Num 500))) /\
  (forall message code,
      fetch request = Throw (FlowApiError message code) ->
      result = Throw (FlowApiError message code)) /\
  (forall response message code,
      fetch request = Return response ->
      read_response response = Throw (FlowApiError message code) ->
      result = Throw (FlowApiError message code)).
Proof.
  unfold result, makeRequest. fold request. repeat split.
  - intros m H. now rewrite H.
  - intros m c H. now rewrite H.
  - intros r m c H Hr. rewrite H. simpl. now rewrite Hr.
Qed.

(** A thrown value that is not an [Error] has no message to carry. *)
Lemma makeRequest_catch_not_an_error (v : value) :
  fetch request = Throw (NotAnError v) ->
  result = Throw (FlowApiError "Unknown error occurred" (Num 500)).
Proof.
  intros H. unfold result, makeRequest. fold request. now rewrite H.
Qed.

(** Every failure reaches the caller as a [FlowApiError]. *)
Lemma makeRequest_normalized :
  (exists data, result = Return data) \/
  (exists message code, result = Throw (FlowApiError message code)).
Proof.
  unfold result, makeRequest.
  destruct (fetch _) as [response|[m c|m|v]]; simpl;
    [| right; eauto ..].
  destruct (read_response response) as [data|[m c|m|v]]; simpl; eauto.
Qed.

End Dispatch.

(** ** The mappings on concrete responses *)

Lemma makeRequest_2xx_witness :
  createCustomer (answering declined) test_config jane
  = Throw (FlowApiError "declined" (Num 7)) /\
  createCustomer (answering created) test_config jane
  = Return created_body.
Proof.
  split.
  - destruct (makeRequest_2xx (answering declined) test_config
                "/customer/create" POST (createCustomer_params jane)
                declined eq_refl eq_refl) as [H _].
    destruct (H [("code", Num 7); ("message", Str "declined")] 7
                eq_refl eq_refl ltac:(discriminate)) as [Hm _].
    exact (Hm "declined" eq_refl).
  - destruct (makeRequest_2xx (answering created) test_config
                "/customer/create" POST (createCustomer_params jane)
                created eq_refl eq_refl) as [_ H].
    apply H; [reflexivity | right; reflexivity].
Defined.

(** C7 as stated fails: an empty message is not carried but replaced, and
    a body that is [null] has no [code] and yet is not a success. *)
Lemma makeRequest_2xx_message_replaced :
  let unexplained :=
    {| status := 200;
       json_body := Parsed (Object [("code", Num 7); ("message", Str "")]) |} in
  let empty := {| status := 200; json_body := Parsed Null |} in
  ok unexplained = true /\
  createCustomer (answering unexplained) test_config jane
  = Throw (FlowApiError "API error" (Num 7)) /\
  createCustomer (answering unexplained) test_config jane
  <> Throw (FlowApiError "" (Num 7)) /\
  createCustomer (answering empty) test_config jane
  = Throw (FlowApiError "Cannot read properties of null (reading 'code')"
                        (Num 500)) /\
  createCustomer (answering empty) test_config jane <> Return Null.
Proof. repeat split; try reflexivity; vm_compute; discriminate. Qed.

Lemma makeRequest_non_2xx_witness :
  createCustomer (answering bad_request) test_config jane
  = Throw (FlowApiError "bad request" (Num 42)) /\
  createCustomer (answering unavailable) test_config jane
  = Throw (FlowApiError "Unknown error" (Num 503)).
Proof.
  split.
  - destruct (makeRequest_non_2xx (answering bad_request) test_config
                "/customer/create" POST (createCustomer_params jane)
                bad_request eq_refl eq_refl) as [H _].
    exact (H [("code", Num 42); ("message", Str "bad request")]
             42 "bad request" eq_refl eq_refl eq_refl).
  - destruct (makeRequest_non_2xx (answering unavailable) test_config
                "/customer/create" POST (createCustomer_params jane)
                unavailable eq_refl eq_refl) as [_ H].
    exact (H "Unexpected token < in JSON at position 0" eq_refl).
Defined.

(** C8 as stated fails: a body's code 0 and a body's empty message are not
    carried, the HTTP status and a message made from it are. *)
Lemma makeRequest_non_2xx_falls_back :
  let zero_code :=
    {| status := 400;
       json_body := Parsed (Object [("code", Num 0);
                                    ("message", Str "bad request")]) |} in
  let no_text :=
    {| status := 400;
       json_body := Parsed (Object [("code", Num 42); ("message", Str "")]) |} in
  ok zero_code = false /\
  createCustomer (answering zero_code) test_config jane
  = Throw (FlowApiError "bad request" (Num 400)) /\
  createCustomer (answering zero_code) test_config jane
  <> Throw (FlowApiError "bad request" (Num 0)) /\
  createCustomer (answering no_text) test_config jane
  = Throw (FlowApiError "HTTP error 400" (Num 42)) /\
  createCustomer (answering no_text) test_config jane
  <> Throw (FlowApiError "" (Num 42)).
Proof. repeat split; try reflexivity; vm_compute; discriminate. Qed.

Lemma makeRequest_catch_witness :
  createCustomer (failing (Error "connect ECONNREFUSED")) test_config jane
  = Throw (FlowApiError "connect ECONNREFUSED" (Num 500)) /\
  createCustomer (failing (FlowApiError "declined" (Num 7))) test_config jane
  = Throw (FlowApiError "declined" (Num 7)) /\
  createCustomer (answering bad_request) test_config jane
  = Throw (FlowApiError "bad request" (Num 42)).
Proof.
  split; [|split].
  - destruct (makeRequest_catch
                (failing (Error "connect ECONNREFUSED")) test_config
                "/customer/create" POST (createCustomer_params jane))
      as [H _].
    exact (H "connect ECONNREFUSED" eq_refl).
  - destruct (makeRequest_catch
                (failing (FlowApiError "declined" (Num 7))) test_config
                "/customer/create" POST (createCustomer_params jane))
      as [_ [H _]].
    exact (H "declined" (Num 7) eq_refl).
  - destruct (makeRequest_catch (answering bad_request) test_config
                "/customer/create" POST (createCustomer_params jane))
      as [_ [_ H]].
    exact (H bad_request "bad request" (Num 42) eq_refl eq_refl).
Defined.


(* ================================================================== *)
(** * Further properties *)

(** ** Writing and reading properties *)

Lemma get_set_same {V} (k : string) (v : V) (o : Obj.t V) :
  Obj.get k (Obj.set k v o) = Some v.
Proof.
  induction o as [|[k' w] o IH]; simpl.
  - now rewrite String.eqb_refl.
  - destruct (String.eqb_spec k k') as [->|Hne]; simpl.
    + now rewrite String.eqb_refl.
    + destruct (String.eqb_spec k k'); [contradiction | exact IH].
Qed.

Lemma get_set_other {V} (k k' : string) (v : V) (o : Obj.t V) :
  k <> k' -> Obj.get k (Obj.set k' v o) = Obj.get k o.
Proof.
  intros Hne. induction o as [|[k0 w] o IH]; simpl.
  - destruct (String.eqb_spec k k'); [contradiction | reflexivity].
  - destruct (String.eqb_spec k' k0) as [->|Hne']; simpl.
    + destruct (String.eqb_spec k k0); [contradiction | reflexivity].
    + destruct (String.eqb_spec k k0); [reflexivity | exact IH].
Qed.

Lemma set_wf {V} (k : string) (v : V) (o : Obj.t V) :
  Obj.wf o -> Obj.wf (Obj.set k v o).
Proof.
  intros Hwf. unfold Obj.wf in *.
  destruct (in_dec string_dec k (Obj.keys o)) as [Hin|Hout].
  - now rewrite keys_set_present.
  - rewrite set_fresh by assumption. unfold Obj.keys in *.
    rewrite map_app. simpl.
    apply NoDup_app_remove_l with (l := []). simpl.
    apply Permutation_NoDup with (l := k :: map fst o).
    + apply Permutation_cons_append.
    + now constructor.
Qed.

(** Spreading keeps names unique, whatever is spread. *)
Lemma spread_wf {V} (src base : Obj.t V) :
  Obj.wf base -> Obj.wf (Obj.spread base src).
Proof.
  unfold Obj.spread. revert base.
  induction src as [|[k v] src IH]; intros base Hwf; simpl; [exact Hwf|].
  apply IH. now apply set_wf.
Qed.

(** A property of the result of a spread is the one of the source, or, for
    a name the source does not have, the one of the base. *)
Lemma spread_get {V} (k : string) (src base : Obj.t V) :
  Obj.wf src ->
  Obj.get k (Obj.spread base src)
  = match Obj.get k src with
    | Some v => Some v
    | None => Obj.get k base
    end.
Proof.
  unfold Obj.spread, Obj.wf. revert base.
  induction src as [|[k0 v0] src IH]; intros base Hnd; simpl; [reflexivity|].
  inversion Hnd as [|? ? Hk0 Hnd']; subst.
  rewrite IH by assumption.
  destruct (String.eqb_spec k k0) as [->|Hne].
  - apply get_None_iff in Hk0. rewrite Hk0. apply get_set_same.
  - destruct (Obj.get k src); [reflexivity|]. now apply get_set_other.
Qed.

Lemma paramsWithApiKey_wf (config : FlowConfig) (params : Obj.t scalar) :
  Obj.wf (paramsWithApiKey config params).
Proof.
  apply spread_wf. repeat constructor. simpl. tauto.
Qed.

Lemma signedParams_wf (config : FlowConfig) (params : Obj.t scalar) :
  Obj.wf (signedParams config params).
Proof.
  unfold signedParams. apply set_wf, spread_wf. constructor.
Qed.

Lemma signedParams_get (config : FlowConfig) (params : Obj.t scalar)
  (k : string) :
  Obj.get k (signedParams config params)
  = if String.eqb k "s"
    then Some (SStr (sign config (paramsWithApiKey config params)))
    else Obj.get k (paramsWithApiKey config params).
Proof.
  unfold signedParams.
  destruct (String.eqb_spec k "s") as [->|Hne].
  - apply get_set_same.
  - rewrite get_set_other by assumption.
    rewrite spread_empty; [reflexivity | apply paramsWithApiKey_wf].
Qed.

(** An entry is serialized exactly when it is a property of the signed
    object. *)
Lemma sortedEntries_In (signed : Obj.t scalar) (k x : string) :
  Obj.wf signed ->
  In (k, x) (sortedEntries signed)
  <-> exists v, Obj.get k signed = Some v /\ x = String_of v.
Proof.
  intros Hwf. split.
  - intros Hin.
    apply (Permutation_in _ (sortedEntries_perm signed)) in Hin.
    apply in_map_iff in Hin. destruct Hin as [[k' v] [E Hin]].
    unfold wire_entry in E. simpl in E. injection E as -> <-.
    exists v. split; [now apply get_In | reflexivity].
  - intros [v [Hget ->]].
    apply (Permutation_in _ (Permutation_sym (sortedEntries_perm signed))).
    apply in_map_iff. exists (k, v). split; [reflexivity|].
    now apply get_Some_In.
Qed.

(** ** The merge of the API key and the signature entry *)

Lemma paramsWithApiKey_get (config : FlowConfig) (params : Obj.t scalar)
  (k : string) :
  Obj.wf params ->
  Obj.get k (paramsWithApiKey config params)
  = match Obj.get k params with
    | Some v => Some v
    | None => if String.eqb k "apiKey" then Some (SStr (apiKey config))
              else None
    end.
Proof.
  intros Hwf. unfold paramsWithApiKey.
  rewrite spread_get by assumption. reflexivity.
Qed.

(** X1: the merge keeps every parameter of the caller, a caller's own
    [apiKey] included, which takes the place of the configured key; the
    configured key is added only when the caller names no [apiKey], and
    nothing else is added. *)
Theorem paramsWithApiKey_merge (config : FlowConfig) (params : Obj.t scalar) :
  Obj.wf params ->
  (forall k v, Obj.get k params = Some v ->
               Obj.get k (paramsWithApiKey config params) = Some v) /\
  (Obj.get "apiKey" params = None ->
   Obj.get "apiKey" (paramsWithApiKey config params)
   = Some (SStr (apiKey config))) /\
  (forall k, k <> "apiKey" -> Obj.get k params = None ->
             Obj.get k (paramsWithApiKey config params) = None).
Proof.
  intros Hwf. repeat split.
  - intros k v H. now rewrite paramsWithApiKey_get, H.
  - intros H. now rewrite paramsWithApiKey_get, H.
  - intros k Hk H. rewrite paramsWithApiKey_get, H by assumption.
    destruct (String.eqb_spec k "apiKey"); [contradiction | reflexivity].
Qed.

Lemma paramsWithApiKey_merge_witness :
  Obj.get "apiKey"
    (paramsWithApiKey test_config (Obj.literal [("apiKey", SStr "other")]))
  = Some (SStr "other") /\
  Obj.get "apiKey"
    (paramsWithApiKey test_config (Obj.literal [("token", SStr "t1")]))
  = Some (SStr "K").
Proof.
  split.
  - destruct (paramsWithApiKey_merge test_config
                (Obj.literal [("apiKey", SStr "other")])) as [H _].
    + repeat constructor; simpl; tauto.
    + now apply H.
  - destruct (paramsWithApiKey_merge test_config
                (Obj.literal [("token", SStr "t1")])) as [_ [H _]].
    + repeat constructor; simpl; tauto.
    + now apply H.
Defined.

(** X2: for every parameter set, the entry [s] that is transmitted is the
    signature of the merged set, also when the caller passed an [s] of its
    own; it is the only entry under that name, and no name is transmitted
    twice. *)
Theorem signedParams_signature (config : FlowConfig) (params : Obj.t scalar) :
  let signature := sign config (paramsWithApiKey config params) in
  NoDup (transmitted_names config params) /\
  (forall x, In ("s", x) (sortedEntries (signedParams config params))
             <-> x = signature).
Proof.
  intros signature. split.
  - rewrite transmitted_names_sort.
    apply Permutation_NoDup with (l := Obj.keys (signedParams config params)).
    + symmetry. apply Array_sort_perm.
    + apply signedParams_wf.
  - intros x. rewrite sortedEntries_In by apply signedParams_wf.
    rewrite signedParams_get. simpl. split.
    + intros [v [[= <-] ->]]. reflexivity.
    + intros ->. exists (SStr signature). now split.
Qed.

(** X3: apart from [s] and [apiKey], what is transmitted is exactly the
    caller's parameters, each with the string form of its value. *)
Theorem makeRequest_transmits_parameters (config : FlowConfig)
  (params : Obj.t scalar) (k x : string) :
  Obj.wf params -> k <> "s" -> k <> "apiKey" ->
  In (k, x) (sortedEntries (signedParams config params))
  <-> exists v, Obj.get k params = Some v /\ x = String_of v.
Proof.
  intros Hwf Hs Hk.
  rewrite sortedEntries_In by apply signedParams_wf.
  rewrite signedParams_get.
  destruct (String.eqb_spec k "s"); [contradiction|].
  rewrite (paramsWithApiKey_get config params k Hwf).
  destruct (String.eqb_spec k "apiKey"); [contradiction|].
  destruct (Obj.get k params); [reflexivity|].
  split; intros [v [H _]]; discriminate.
Qed.

Lemma makeRequest_transmits_parameters_witness :
  In ("token", "t1")
     (sortedEntries
        (signedParams test_config (Obj.literal [("token", SStr "t1")]))).
Proof.
  apply makeRequest_transmits_parameters.
  - repeat constructor; simpl; tauto.
  - discriminate.
  - discriminate.
  - exists (SStr "t1"). now split.
Defined.

(** ** The canonical string does not separate names from values *)

Lemma append_assoc (a b c : string) :
  ((a ++ b) ++ c = a ++ b ++ c)%string.
Proof. induction a as [|x a IH]; simpl; [reflexivity | now rewrite IH]. Qed.

(** X4: names and values are concatenated without delimiters, so that
    parameter sets that differ can have the same string to sign and the
    same signature: a parameter [k'] with value [v'] can be folded into the
    value of a parameter [k] that sorts before it. *)
Theorem sign_folds_parameters (config : FlowConfig) (k k' v v' : string) :
  code_unit_compare k k' = Lt ->
  toSign [(k, SStr (v ++ k' ++ v'))] = toSign [(k, SStr v); (k', SStr v')] /\
  sign config [(k, SStr (v ++ k' ++ v'))]
  = sign config [(k, SStr v); (k', SStr v')].
Proof.
  intros Hlt.
  assert (Hne : String.eqb k' k = false).
  { apply String.eqb_neq. intros ->.
    rewrite compare_refl in Hlt. discriminate. }
  assert (E : toSign [(k, SStr (v ++ k' ++ v'))]
              = toSign [(k, SStr v); (k', SStr v')]).
  { unfold toSign, sortedKeys. simpl. rewrite Hlt. simpl.
    rewrite !String.eqb_refl, Hne. simpl.
    now rewrite append_assoc. }
  split; [exact E|]. unfold sign. now rewrite E.
Qed.

Lemma sign_folds_parameters_witness :
  sign test_config [("amount", SStr "1currencyCLP")]
  = sign test_config [("amount", SStr "1"); ("currency", SStr "CLP")].
Proof.
  apply (sign_folds_parameters test_config "amount" "currency" "1" "CLP").
  reflexivity.
Defined.

(** ** The requests of the operations *)

(** X5: for every request, [createCustomer] signs [apiKey], [email],
    [externalId] and [name], in this order and each followed by its value,
    and calls [fetch] once, posting these four entries and the signature
    as a form to [/customer/create]. *)
Theorem createCustomer_request
  (fetch : fetch_request -> completion Response) (config : FlowConfig)
  (request : CustomerCreateRequest.t) :
  let toSigned :=
    ("apiKey" ++ apiKey config
     ++ "email" ++ CustomerCreateRequest.email request
     ++ "externalId" ++ CustomerCreateRequest.externalId request
     ++ "name" ++ CustomerCreateRequest.name request)%string in
  let entries :=
    [ ("apiKey", apiKey config);
      ("email", CustomerCreateRequest.email request);
      ("externalId", CustomerCreateRequest.externalId request);
      ("name", CustomerCreateRequest.name request);
      ("s", HmacSHA256 toSigned (secretKey config)) ] in
  toSign (paramsWithApiKey config (createCustomer_params request)) = toSigned /\
  createCustomer fetch config request
  = try_catch
      (response <- fetch
         {| req_url := (baseUrl config ++ "/customer/create")%string;
            req_method := POST;
            req_content_type := "application/x-www-form-urlencoded";
            req_body := Some (URLSearchParams.toString entries) |} ;;
       read_response response)
      on_error.
Proof.
  destruct request as [n e i]. destruct config as [K secret base].
  intros toSigned entries. simpl in toSigned.
  assert (E : toSign (paramsWithApiKey
                        {| apiKey := K; secretKey := secret; baseUrl := base |}
                        (createCustomer_params
                           {| CustomerCreateRequest.name := n;
                              CustomerCreateRequest.email := e;
                              CustomerCreateRequest.externalId := i |}))
              = toSigned) by reflexivity.
  split; [exact E|].
  unfold createCustomer, makeRequest, request_of, signedParams, sign.
  rewrite E. unfold entries. simpl secretKey. simpl apiKey.
  generalize (HmacSHA256 toSigned secret). intros signature.
  reflexivity.
Qed.

(** X6: for every request, [registerCustomer] signs [apiKey], [customerId]
    and [url_return], in this order and each followed by its value, and
    calls [fetch] once, posting [apiKey], [customerId], [s] and
    [url_return] as a form to [/customer/register]. *)
Theorem registerCustomer_request
  (fetch : fetch_request -> completion Response) (config : FlowConfig)
  (request : CustomerRegisterRequest.t) :
  let toSigned :=
    ("apiKey" ++ apiKey config
     ++ "customerId" ++ CustomerRegisterRequest.customerId request
     ++ "url_return" ++ CustomerRegisterRequest.url_return request)%string in
  let entries :=
    [ ("apiKey", apiKey config);
      ("customerId", CustomerRegisterRequest.customerId request);
      ("s", HmacSHA256 toSigned (secretKey config));
      ("url_return", CustomerRegisterRequest.url_return request) ] in
  toSign (paramsWithApiKey config (registerCustomer_params request)) = toSigned /\
  registerCustomer fetch config request
  = try_catch
      (response <- fetch
         {| req_url := (baseUrl config ++ "/customer/register")%string;
            req_method := POST;
            req_content_type := "application/x-www-form-urlencoded";
            req_body := Some (URLSearchParams.toString entries) |} ;;
       read_response response)
      on_error.
Proof.
  destruct request as [c u]. destruct config as [K secret base].
  intros toSigned entries. simpl in toSigned.
  assert (E : toSign (paramsWithApiKey
                        {| apiKey := K; secretKey := secret; baseUrl := base |}
                        (registerCustomer_params
                           {| CustomerRegisterRequest.customerId := c;
                              CustomerRegisterRequest.url_return := u |}))
              = toSigned) by reflexivity.
  split; [exact E|].
  unfold registerCustomer, makeRequest, request_of, signedParams, sign.
  rewrite E. unfold entries. simpl secretKey. simpl apiKey.
  generalize (HmacSHA256 toSigned secret). intros signature.
  reflexivity.
Qed.

(** X7: for every request, [getRegisterStatus] signs [apiKey] and [token],
    each followed by its value, and calls [fetch] once with a GET without a
    body to [/customer/getRegisterStatus], whose query string carries
    [apiKey], [s] and [token] in this order. *)
Theorem getRegisterStatus_request
  (fetch : fetch_request -> completion Response) (config : FlowConfig)
  (request : CustomerRegisterStatusRequest.t) :
  let toSigned :=
    ("apiKey" ++ apiKey config
     ++ "token" ++ CustomerRegisterStatusRequest.token request)%string in
  let entries :=
    [ ("apiKey", apiKey config);
      ("s", HmacSHA256 toSigned (secretKey config));
      ("token", CustomerRegisterStatusRequest.token request) ] in
  toSign (paramsWithApiKey config (getRegisterStatus_params request)) = toSigned /\
  getRegisterStatus fetch config request
  = try_catch
      (response <- fetch
         {| req_url := ((baseUrl config ++ "/customer/getRegisterStatus")
                        ++ "?" ++ URLSearchParams.toString entries)%string;
            req_method := GET;
            req_content_type := "application/json";
            req_body := None |} ;;
       read_response response)
      on_error.
Proof.
  destruct request as [t]. destruct config as [K secret base].
  intros toSigned entries. simpl in toSigned.
  assert (E : toSign (paramsWithApiKey
                        {| apiKey := K; secretKey := secret; baseUrl := base |}
                        (getRegisterStatus_params
                           {| CustomerRegisterStatusRequest.token := t |}))
              = toSigned) by reflexivity.
  split; [exact E|].
  unfold getRegisterStatus, makeRequest, request_of, signedParams, sign.
  rewrite E. unfold entries. simpl secretKey. simpl apiKey.
  generalize (HmacSHA256 toSigned secret). intros signature.
  reflexivity.
Qed.

(** The value a charge gives to the name of an optional field. *)
Lemma chargeCustomer_params_optional (customerId : string) (amount : Z)
  (currency subject : string) (co em uc ur : option string)
  (name : string) (field : option string) :
  In (name, field)
     [ ("commerceOrder", co); ("email", em);
       ("urlConfirmation", uc); ("urlReturn", ur) ] ->
  Obj.get name
    (chargeCustomer_params
       (charge_request customerId amount currency subject co em uc ur))
  = match field with
    | Some s => if String.eqb s "" then None else Some (SStr s)
    | None => None
    end.
Proof.
  intros [[= <- <-]|[[= <- <-]|[[= <- <-]|[[= <- <-]|[]]]]];
    split_optional co; split_optional em;
    split_optional uc; split_optional ur; reflexivity.
Qed.

Lemma chargeCustomer_optional_entries (config : FlowConfig)
  (customerId : string) (amount : Z) (currency subject : string)
  (co em uc ur : option string) (name : string) (field : option string)
  (x : string) :
  In (name, field)
     [ ("commerceOrder", co); ("email", em);
       ("urlConfirmation", uc); ("urlReturn", ur) ] ->
  In (name, x)
     (sortedEntries
        (signedParams config
           (chargeCustomer_params
              (charge_request customerId amount currency subject
                              co em uc ur))))
  <-> field = Some x /\ x <> "".
Proof.
  intros Hin.
  assert (Hname : name <> "s" /\ name <> "apiKey").
  { destruct Hin as [[= <- <-]|[[= <- <-]|[[= <- <-]|[[= <- <-]|[]]]]];
      split; discriminate. }
  destruct Hname as [Hs Hk].
  rewrite sortedEntries_In by apply signedParams_wf.
  rewrite signedParams_get.
  destruct (String.eqb_spec name "s"); [contradiction|].
  rewrite paramsWithApiKey_get
    by apply (operation_params_unreserved (ChargeCustomer _)).
  rewrite (chargeCustomer_params_optional _ _ _ _ co em uc ur name field Hin).
  destruct (String.eqb_spec name "apiKey"); [contradiction|].
  destruct field as [s|].
  - destruct (String.eqb_spec s "") as [->|Hne].
    + split; [intros [v [H _]]; discriminate|].
      intros [[= <-] H]. contradiction.
    + split.
      * intros [v [[= <-] ->]]. now split.
      * intros [[= ->] _]. exists (SStr x). now split.
  - split; [intros [v [H _]]; discriminate | intros [H _]; discriminate].
Qed.

(** X8: [chargeCustomer] calls [fetch] once, posting a form to
    [/customer/charge], and the form carries the name of an optional field
    exactly when the field is a non-empty string, and then with that string
    as its value. *)
Theorem chargeCustomer_optional_transmitted
  (fetch : fetch_request -> completion Response) (config : FlowConfig)
  (customerId : string) (amount : Z) (currency subject : string)
  (co em uc ur : option string) :
  let request :=
    charge_request customerId amount currency subject co em uc ur in
  let entries :=
    sortedEntries (signedParams config (chargeCustomer_params request)) in
  chargeCustomer fetch config request
  = try_catch
      (response <- fetch
         {| req_url := (baseUrl config ++ "/customer/charge")%string;
            req_method := POST;
            req_content_type := "application/x-www-form-urlencoded";
            req_body := Some (URLSearchParams.toString entries) |} ;;
       read_response response)
      on_error /\
  forall name field x,
    In (name, field)
       [ ("commerceOrder", co); ("email", em);
         ("urlConfirmation", uc); ("urlReturn", ur) ] ->
    (In (name, x) entries <-> field = Some x /\ x <> "").
Proof.
  intros request entries. split; [reflexivity|].
  intros name field x. apply chargeCustomer_optional_entries.
Qed.

Lemma chargeCustomer_optional_transmitted_witness :
  In ("email", "a@b.com")
     (sortedEntries
        (signedParams test_config
           (chargeCustomer_params
              (charge_request "c1" 1000 "CLP" "order" None (Some "a@b.com")
                              None None)))).
Proof.
  destruct (chargeCustomer_optional_transmitted (answering created)
              test_config "c1" 1000 "CLP" "order"
              None (Some "a@b.com") None None) as [_ H].
  apply (H "email" (Some "a@b.com") "a@b.com").
  - right. left. reflexivity.
  - split; [reflexivity | discriminate].
Defined.

(** ** Alphabets of the signature and of the form *)

Lemma append_nil_r (a : string) : (a ++ "")%string = a.
Proof. induction a as [|x a IH]; simpl; [reflexivity | now rewrite IH]. Qed.

Lemma length_append (a b : string) :
  String.length (a ++ b) = (String.length a + String.length b)%nat.
Proof. induction a as [|x a IH]; simpl; [reflexivity | now rewrite IH]. Qed.

Lemma concat_empty_cons (x : string) (l : list string) :
  String.concat "" (x :: l) = (x ++ String.concat "" l)%string.
Proof. destruct l; simpl; [now rewrite append_nil_r | reflexivity]. Qed.

Lemma string_forall_append (P : ascii -> bool) (a b : string) :
  string_forall P (a ++ b) = string_forall P a && string_forall P b.
Proof.
  induction a as [|x a IH]; simpl; [reflexivity|].
  now rewrite IH, andb_assoc.
Qed.

Lemma string_forall_impl (P Q : ascii -> bool) (s : string) :
  (forall c, P c = true -> Q c = true) ->
  string_forall P s = true -> string_forall Q s = true.
Proof.
  intros HPQ. induction s as [|x s IH]; simpl; [reflexivity|].
  rewrite !andb_true_iff. intros [H1 H2]. auto.
Qed.

Lemma string_forall_concat (P : ascii -> bool) (l : list string) :
  Forall (fun x => string_forall P x = true) l ->
  string_forall P (String.concat "" l) = true.
Proof.
  induction 1 as [|x l Hx Hl IH]; [reflexivity|].
  rewrite concat_empty_cons, string_forall_append, Hx, IH. reflexivity.
Qed.

(** A check on every integer below [n] holds of each of them. *)
Lemma below_forallb (P : Z -> bool) (n : nat) :
  forallb P (map Z.of_nat (seq 0 n)) = true ->
  forall z, 0 <= z < Z.of_nat n -> P z = true.
Proof.
  intros H z Hz. rewrite forallb_forall in H. apply H.
  apply in_map_iff. exists (Z.to_nat z). split; [lia|].
  apply in_seq. lia.
Qed.

Lemma land_255_byte (x : Z) : is_byte (Z.land x 255).
Proof.
  unfold is_byte. change 255 with (Z.ones 8).
  rewrite Z.land_ones by lia. apply Z.mod_pos_bound. reflexivity.
Qed.

Lemma word_bytes_bytes (l : list Z) :
  Forall is_byte (flat_map SHA256.word_bytes l) /\
  List.length (flat_map SHA256.word_bytes l) = (4 * List.length l)%nat.
Proof.
  induction l as [|w l [IHb IHl]]; [split; [constructor | reflexivity]|].
  change (flat_map SHA256.word_bytes (w :: l))
    with (SHA256.word_bytes w ++ flat_map SHA256.word_bytes l).
  split.
  - apply Forall_app. split; [|exact IHb].
    unfold SHA256.word_bytes.
    repeat (apply Forall_cons; [apply land_255_byte|]). constructor.
  - rewrite length_app, IHl. unfold SHA256.word_bytes.
    cbn [List.length]. lia.
Qed.

Lemma blocks_length (n : nat) (h ws : list Z) :
  List.length h = 8%nat -> List.length (SHA256.blocks n h ws) = 8%nat.
Proof.
  revert h ws. induction n as [|n IH]; intros h ws Hh; [exact Hh|].
  cbn [SHA256.blocks]. destruct ws; [exact Hh|]. apply IH.
  unfold SHA256.compress.
  lazy beta zeta iota delta [List.length]. reflexivity.
Qed.

(** A digest is 32 bytes. *)
Lemma sha256_bytes (msg : list Z) :
  Forall is_byte (SHA256.sha256 msg) /\
  List.length (SHA256.sha256 msg) = 32%nat.
Proof.
  unfold SHA256.sha256.
  destruct (word_bytes_bytes
              (SHA256.blocks (List.length (SHA256.words (SHA256.pad msg)))
                             SHA256.H0 (SHA256.words (SHA256.pad msg))))
    as [Hb Hl].
  split; [exact Hb|]. rewrite Hl, blocks_length; reflexivity.
Qed.

Lemma hex_byte_lower (b : Z) :
  is_byte b -> string_forall is_lower_hex (Bytes.hex_byte true b) = true.
Proof.
  apply (below_forallb
           (fun b => string_forall is_lower_hex (Bytes.hex_byte true b)) 256).
  vm_compute. reflexivity.
Qed.

Lemma hex_lower (bs : list Z) :
  Forall is_byte bs ->
  string_forall is_lower_hex (Bytes.hex bs) = true /\
  String.length (Bytes.hex bs) = (2 * List.length bs)%nat.
Proof.
  induction 1 as [|b bs Hb Hbs [IHa IHl]]; simpl; [split; reflexivity|].
  split.
  - apply hex_byte_lower in Hb. simpl in Hb.
    rewrite andb_true_iff in Hb. destruct Hb as [H1 H2].
    rewrite andb_true_iff in H2. destruct H2 as [H2 _].
    now rewrite H1, H2, IHa.
  - rewrite IHl. lia.
Qed.

Lemma lower_hex_unreserved (c : ascii) :
  is_lower_hex c = true -> is_unreserved c = true.
Proof.
  destruct c as [[] [] [] [] [] [] [] []]; vm_compute;
    first [reflexivity | discriminate].
Qed.

Lemma utf8_unit_unreserved (c : ascii) :
  is_unreserved c = true ->
  map URLSearchParams.encode_byte (Bytes.utf8_unit c) = [String c EmptyString].
Proof.
  destruct c as [[] [] [] [] [] [] [] []]; vm_compute;
    first [reflexivity | discriminate].
Qed.

Lemma utf8_unit_form_safe (c : ascii) :
  Forall (fun x => string_forall is_form_safe x = true)
         (map URLSearchParams.encode_byte (Bytes.utf8_unit c)).
Proof.
  apply Forall_forall. apply forallb_forall.
  destruct c as [[] [] [] [] [] [] [] []]; vm_compute; reflexivity.
Qed.

Lemma encode_cons (c : ascii) (s : string) :
  URLSearchParams.encode (String c s)
  = (String.concat "" (map URLSearchParams.encode_byte (Bytes.utf8_unit c))
     ++ URLSearchParams.encode s)%string.
Proof.
  unfold URLSearchParams.encode. simpl Bytes.utf8. rewrite map_app.
  generalize (map URLSearchParams.encode_byte (Bytes.utf8_unit c)) as l.
  generalize (map URLSearchParams.encode_byte (Bytes.utf8 s)) as r.
  intros r l. induction l as [|x l IH]; [reflexivity|].
  simpl app. rewrite !concat_empty_cons, IH. now rewrite append_assoc.
Qed.

Lemma encode_unreserved (s : string) :
  string_forall is_unreserved s = true -> URLSearchParams.encode s = s.
Proof.
  induction s as [|c s IH]; [reflexivity|].
  simpl. rewrite andb_true_iff. intros [Hc Hs].
  rewrite encode_cons, utf8_unit_unreserved by assumption.
  simpl. now rewrite IH.
Qed.

(** X9: whatever the parameters and the secret key, the signature is 64
    characters, each a digit or a letter from [a] to [f], and the form
    encoding leaves it as it is: [s] is transmitted verbatim. *)
Theorem sign_lower_hex (config : FlowConfig) (params : Obj.t scalar) :
  String.length (sign config params) = 64%nat /\
  string_forall is_lower_hex (sign config params) = true /\
  URLSearchParams.encode (sign config params) = sign config params.
Proof.
  unfold sign, HmacSHA256, SHA256.hmac.
  match goal with
  | |- context [Bytes.hex (SHA256.sha256 ?m)] =>
      destruct (sha256_bytes m) as [Hb Hl];
      destruct (hex_lower _ Hb) as [Ha Hn];
      generalize dependent (Bytes.hex (SHA256.sha256 m))
  end.
  intros signature Ha Hn. rewrite Hl in Hn.
  split; [exact Hn|]. split; [exact Ha|].
  apply encode_unreserved.
  apply (string_forall_impl is_lower_hex); [|exact Ha].
  apply lower_hex_unreserved.
Qed.

(** X10: an encoded name or value is made of unreserved characters, plus
    signs and percent signs only, so that it holds no ampersand and no
    equals sign; a string of unreserved characters is its own encoding. *)
Theorem encode_form_safe (s : string) :
  string_forall is_form_safe (URLSearchParams.encode s) = true /\
  string_forall (fun c => negb (is_separator c))
                (URLSearchParams.encode s) = true /\
  (string_forall is_unreserved s = true -> URLSearchParams.encode s = s).
Proof.
  assert (H : string_forall is_form_safe (URLSearchParams.encode s) = true).
  { induction s as [|c s IH]; [reflexivity|].
    rewrite encode_cons, string_forall_append, IH, andb_true_r.
    apply string_forall_concat, utf8_unit_form_safe. }
  split; [exact H|]. split; [|apply encode_unreserved].
  apply (string_forall_impl is_form_safe); [|exact H].
  intros c. destruct c as [[] [] [] [] [] [] [] []]; vm_compute;
    first [reflexivity | discriminate].
Qed.

Lemma encode_form_safe_witness :
  URLSearchParams.encode "order-17_a.b*c" = "order-17_a.b*c" /\
  URLSearchParams.encode "a&b=c d" = "a%26b%3Dc+d".
Proof.
  split; [|reflexivity].
  destruct (encode_form_safe "order-17_a.b*c") as [_ [_ H]].
  apply H. reflexivity.
Defined.

(** ** Outcomes of a dispatch *)

(** X11: whatever the transport does, a dispatch that fails fails with a
    [FlowApiError]: no other thrown value reaches the caller. *)
Theorem makeRequest_throws_FlowApiError
  (fetch : fetch_request -> completion Response) (config : FlowConfig)
  (endpoint : string) (method : http_method) (params : Obj.t scalar)
  (e : thrown) :
  makeRequest fetch config endpoint method params = Throw e ->
  exists message code, e = FlowApiError message code.
Proof.
  intros H.
  destruct (makeRequest_normalized fetch config endpoint method params)
    as [[d Hd]|[m [c Hc]]]; rewrite H in *.
  - discriminate.
  - injection Hc as ->. eauto.
Qed.

Lemma makeRequest_throws_FlowApiError_witness :
  exists message code,
    FlowApiError "Unknown error occurred" (Num 500)
    = FlowApiError message code.
Proof.
  apply (makeRequest_throws_FlowApiError
           (failing (NotAnError (Str "boom"))) test_config
           "/customer/create" POST (createCustomer_params jane)
           (FlowApiError "Unknown error occurred" (Num 500)) eq_refl).
Defined.

(** X12: a dispatch succeeds exactly when the transport answers with a 2xx
    response whose body is JSON, is not [null] and has no truthy [code];
    the result is then that body. *)
Theorem makeRequest_success_iff
  (fetch : fetch_request -> completion Response) (config : FlowConfig)
  (endpoint : string) (method : http_method) (params : Obj.t scalar)
  (body : value) :
  makeRequest fetch config endpoint method params = Return body
  <-> exists response code,
      fetch (request_of config endpoint method params) = Return response /\
      ok response = true /\
      json_body response = Parsed body /\
      get_prop body "code" = Return code /\
      truthy code = false.
Proof.
  unfold makeRequest. split.
  - destruct (fetch _) as [response|e] eqn:Hf; simpl;
      [|destruct e; discriminate].
    unfold read_response, json.
    destruct (ok response) eqn:Hok; simpl.
    + destruct (json_body response) as [d|m] eqn:Hb; simpl; [|discriminate].
      destruct (get_prop d "code") as [code|e] eqn:Hc; simpl;
        [|destruct e; discriminate].
      destruct (truthy code) eqn:Ht.
      * assert (Hs : strict_neq_zero code = true).
        { destruct code; try reflexivity. exact Ht. }
        rewrite Hs. simpl.
        destruct (get_prop d "message") as [msg|e]; simpl;
          [discriminate | destruct e; discriminate].
      * simpl. intros [= <-]. exists response, code. auto.
    + destruct (json_body response) as [d|m]; simpl; [|discriminate].
      destruct (get_prop d "message") as [msg|e]; simpl;
        [|destruct e; discriminate].
      destruct (get_prop d "code") as [code|e]; simpl;
        [discriminate | destruct e; discriminate].
  - intros [response [code [Hf [Hok [Hb [Hc Ht]]]]]].
    rewrite Hf. simpl. unfold read_response, json.
    rewrite Hok, Hb. simpl. rewrite Hc. simpl. now rewrite Ht.
Qed.

(** X13: a 2xx response whose body is not JSON fails with code 500 and the
    parser's message, and a response whose body is [null] fails with code
    500 whatever its status. *)
Theorem makeRequest_unreadable_body
  (fetch : fetch_request -> completion Response) (config : FlowConfig)
  (endpoint : string) (method : http_method) (params : Obj.t scalar)
  (response : Response) :
  fetch (request_of config endpoint method params) = Return response ->
  (forall syntax_error,
      ok response = true ->
      json_body response = Unparseable syntax_error ->
      makeRequest fetch config endpoint method params
      = Throw (FlowApiError syntax_error (Num 500))) /\
  (json_body response = Parsed Null ->
   exists message,
     makeRequest fetch config endpoint method params
     = Throw (FlowApiError message (Num 500))).
Proof.
  intros Hf. unfold makeRequest. rewrite Hf. simpl.
  unfold read_response, json. split.
  - intros m Hok Hb. now rewrite Hok, Hb.
  - intros Hb. rewrite Hb. destruct (ok response); simpl; eauto.
Qed.

Lemma makeRequest_unreadable_body_witness :
  createCustomer
    (answering {| status := 200; json_body := Unparseable "Unexpected end" |})
    test_config jane
  = Throw (FlowApiError "Unexpected end" (Num 500)).
Proof.
  destruct (makeRequest_unreadable_body
              (answering {| status := 200;
                            json_body := Unparseable "Unexpected end" |})
              test_config "/customer/create" POST
              (createCustomer_params jane)
              {| status := 200; json_body := Unparseable "Unexpected end" |}
              eq_refl) as [H _].
  exact (H "Unexpected end" eq_refl eq_refl).
Defined.

(** ** The configuration and the client of the process *)

(** X14: [getFlowConfig] returns a configuration exactly when the three
    variables are set to non-empty strings, and the configuration holds
    their values; otherwise it throws an [Error] with its fixed message. *)
Theorem getFlowConfig_iff (env : environment) :
  (forall config,
      getFlowConfig env = Return config
      <-> set_to env "FLOW_API_KEY" (apiKey config) /\
          set_to env "FLOW_SECRET_KEY" (secretKey config) /\
          set_to env "FLOW_BASE_URL" (baseUrl config)) /\
  ((exists config, getFlowConfig env = Return config) \/
   getFlowConfig env = Throw (Error config_missing)).
Proof.
  unfold getFlowConfig, set_to, unset. split.
  - intros [K secret base]. simpl.
    destruct (env "FLOW_API_KEY") as [a|];
      destruct (env "FLOW_SECRET_KEY") as [s|];
      destruct (env "FLOW_BASE_URL") as [b|];
      try (split; [discriminate | intros [[H1 _] [[H2 _] [H3 _]]];
                                  discriminate]).
    destruct (String.eqb_spec a ""), (String.eqb_spec s ""),
      (String.eqb_spec b ""); simpl;
      try (split; [discriminate
                  | intros [[[= <-] H1] [[[= <-] H2] [[= <-] H3]]];
                    contradiction]).
    split.
    + intros [= <- <- <-]. auto.
    + intros [[[= <-] _] [[[= <-] _] [[= <-] _]]]. reflexivity.
  - destruct (env "FLOW_API_KEY") as [a|];
      destruct (env "FLOW_SECRET_KEY") as [s|];
      destruct (env "FLOW_BASE_URL") as [b|]; auto.
    destruct (_ || _ || _); eauto.
Qed.


(** X15: once [getFlowClient] has returned a client, every later call
    returns that same client, whatever the environment has become. *)
Theorem getFlowClient_singleton (env : environment)
  (instance instance' : option FlowClient.t) (client : FlowClient.t) :
  getFlowClient env instance = (Return client, instance') ->
  instance' = Some client /\
  forall env', getFlowClient env' instance' = (Return client, instance').
Proof.
  unfold getFlowClient at 1.
  destruct instance as [c|].
  - intros [= <- <-]. split; reflexivity.
  - destruct (getFlowConfig env) as [config|e]; [|discriminate].
    intros [= <- <-]. split; reflexivity.
Qed.

Lemma getFlowClient_singleton_witness :
  getFlowClient empty_env (Some (FlowClient.new test_config))
  = (Return (FlowClient.new test_config), Some (FlowClient.new test_config)).
Proof.
  destruct (getFlowClient_singleton valid_env None
              (Some (FlowClient.new test_config))
              (FlowClient.new test_config) eq_refl) as [_ H].
  apply H.
Defined.

(** X16: a call of [getFlowClient] that fails found no client and an
    incomplete environment, and leaves no client behind: the next call
    reads the environment again. *)
Theorem getFlowClient_failure (env : environment)
  (instance instance' : option FlowClient.t) (e : thrown) :
  getFlowClient env instance = (Throw e, instance') ->
  instance = None /\ instance' = None /\
  e = Error config_missing /\
  getFlowConfig env = Throw (Error config_missing) /\
  forall env' config,
    getFlowConfig env' = Return config ->
    getFlowClient env' instance'
    = (Return (FlowClient.new config), Some (FlowClient.new config)).
Proof.
  unfold getFlowClient at 1.
  destruct instance as [c|]; [discriminate|].
  destruct (getFlowConfig env) as [config|e0] eqn:Hc; [discriminate|].
  intros [= <- <-].
  assert (He : e0 = Error config_missing).
  { unfold getFlowConfig in Hc.
    destruct (env "FLOW_API_KEY"), (env "FLOW_SECRET_KEY"),
      (env "FLOW_BASE_URL"); try (now injection Hc as <-).
    destruct (_ || _ || _); [now injection Hc as <- | discriminate]. }
  subst e0. repeat split.
  intros env' config Hc'. unfold getFlowClient. now rewrite Hc'.
Qed.

Lemma getFlowClient_failure_witness :
  getFlowClient valid_env None
  = (Return (FlowClient.new test_config), Some (FlowClient.new test_config)).
Proof.
  destruct (getFlowClient_failure empty_env None None
              (Error config_missing) eq_refl) as [_ [_ [_ [_ H]]]].
  apply H. reflexivity.
Defined.

(** ** The handler of [onUserCreated] *)

Section HandlerFacts.

Variable env : environment.
Variable fetch : fetch_request -> completion Response.
Variable firestore : string -> string -> value -> completion unit.
Variable cannot_destructure : string.

Let handler := onUserCreated env fetch firestore cannot_destructure.

(** The runs of the handler, case by case. *)
Lemma onUserCreated_run (e : event) (w : world) :
  handler e w
  = match data e with
    | None => (Throw (Error cannot_destructure), w)
    | Some user =>
        let started := calls w ++ auth_calls e user in
        match getFlowClient env (flowClientInstance w) with
        | (Throw err, instance) =>
            (Throw err,
             {| flowClientInstance := instance; calls := started |})
        | (Return client, instance) =>
            match createCustomer fetch (FlowClient.config client)
                    (customer_of e user) with
            | Throw err =>
                (Throw err,
                 {| flowClientInstance := instance; calls := started |})
            | Return body =>
                (firestore "flow-customers" (userId e) body,
                 {| flowClientInstance := instance;
                    calls := started
                             ++ [firestore_set "flow-customers" (userId e)
                                               body] |})
            end
        end
    end.
Proof.
  unfold handler, onUserCreated.
  destruct (data e) as [user|]; [|reflexivity].
  unfold then_, setAuthUserClaims, start, the_client, insertFlowCustomer.
  cbn [flowClientInstance calls].
  fold (auth_calls e user). fold (customer_of e user).
  destruct (getFlowClient env (flowClientInstance w)) as [[client|err] instance];
    [|reflexivity].
  destruct (createCustomer fetch (FlowClient.config client)
              (customer_of e user)); reflexivity.
Qed.


(** X18: the handler succeeds only if the event has data, a client is or
    can be made, Flow returns a body on creating the customer of the event,
    and the write of that body succeeds. *)
Theorem onUserCreated_success_only_if (e : event) (w : world) :
  fst (handler e w) = Return tt ->
  exists user client body,
    data e = Some user /\
    fst (getFlowClient env (flowClientInstance w)) = Return client /\
    createCustomer fetch (FlowClient.config client) (customer_of e user)
    = Return body /\
    firestore "flow-customers" (userId e) body = Return tt.
Proof.
  rewrite onUserCreated_run.
  destruct (data e) as [user|]; [|discriminate].
  destruct (getFlowClient env (flowClientInstance w))
    as [[client|err] instance]; [|discriminate].
  destruct (createCustomer fetch (FlowClient.config client)
              (customer_of e user)) as [body|err] eqn:Hc; [|discriminate].
  simpl. intros H. exists user, client, body. auto.
Qed.


End HandlerFacts.

Lemma onUserCreated_success_only_if_witness :
  exists user client body,
    data ana_created = Some user /\
    fst (getFlowClient valid_env None) = Return client /\
    createCustomer (answering created) (FlowClient.config client)
      (customer_of ana_created user)
    = Return body /\
    accepting "flow-customers" "u1" body = Return tt.
Proof.
  apply (onUserCreated_success_only_if valid_env (answering created)
           accepting "" ana_created
           {| flowClientInstance := None; calls := [] |}).
  reflexivity.
Defined.

